(** * school_alert: the schedule-driven alarm engine of [src/App.tsx]

    A shallow embedding of the alarm engine of the [App] component: the
    recurrence matcher ([currentOngoingClass], the body of [checkAlarms]),
    the per-minute fired-set, the alarm life cycle ([triggerAlarm],
    [stopAlarm], [toggleTestSound]) with the host's timeouts, and the
    loading of the saved class list.

    React state is a record [State]; a function of the component reads the
    state of the render that created it (its closure), so an embedded
    function that reads state takes that render [r : State] as an argument;
    all of them write to the cells of the component [App].  The handler of
    the worker's ticks is the closure of the render that last changed
    [classes] or [currentUser]: [Component] keeps that render beside the
    cells, and [act] runs each tick with it. *)

From Stdlib Require Import String Ascii List ZArith Lia Bool DecimalString Sorted.
From stdpp Require Import base decidable option list gmap sets strings.

Open Scope Z_scope.

(** ** JavaScript strings and numbers *)

Module JS.

(** [a < b] on two strings: lexicographic order on the code units. *)
Definition lt (a b : string) : bool := String.ltb a b.

(** [a >= b] on two strings is the negation of [a < b]. *)
Definition ge (a b : string) : bool := negb (lt a b).

(** [a === b] on two strings. *)
Definition eq (a b : string) : bool := String.eqb a b.

(** [n.toString()] for a non-negative integer. *)
Definition toString (n : nat) : string :=
  NilZero.string_of_uint (Nat.to_uint n).

(** The first [n] characters of [cur] followed by [pad], [pad], ... *)
Fixpoint fill (pad cur : string) (n : nat) : string :=
  match n with
  | O => EmptyString
  | S n' =>
      match cur with
      | String ch rest => String ch (fill pad rest n')
      | EmptyString =>
          match pad with
          | String ch rest => String ch (fill pad rest n')
          | EmptyString => EmptyString
          end
      end
  end.

(** [s.padStart(targetLength, padString)]. *)
Definition padStart (targetLength : nat) (padString s : string) : string :=
  if (targetLength <=? String.length s)%nat then s
  else fill padString padString (targetLength - String.length s) +:+ s.

(** Truthiness of a [string | null]: [null] and the empty string are
    falsy. *)
Definition truthy (s : option string) : bool :=
  match s with
  | Some s' => negb (String.eqb s' EmptyString)
  | None => false
  end.

(** [arr.includes(x)] where [x] is a string or [undefined] ([None]) and
    the array holds strings. *)
Definition includes (arr : list string) (x : option string) : bool :=
  match x with
  | Some s => bool_decide (s ∈ arr)
  | None => false
  end.

End JS.

(** ** Data model ([types.ts]) *)

Record SchoolClass := mkSchoolClass {
  id : string;
  name : string;
  startTime : string;   (* HH:mm *)
  endTime : string;     (* HH:mm *)
  days : list string;
  active : bool
}.

Inductive AlarmType := type_start | type_end.

Record AlarmState := mkAlarmState {
  isActive : bool;
  className : string;
  type : AlarmType
}.

(** The part of a [Date] the engine reads: [getDay()] (0 is Sunday),
    [getHours()] and [getMinutes()] of the local wall clock. *)
Record Date := mkDate {
  getDay : nat;
  getHours : nat;
  getMinutes : nat
}.

(** What [new Date()] can return. *)
Definition validDate (d : Date) : Prop :=
  (getDay d < 7)%nat ∧ (getHours d < 24)%nat ∧ (getMinutes d < 60)%nat.

Definition DAYS_OF_WEEK : list string :=
  ["الأحد"; "الاثنين"; "الثلاثاء"; "الأربعاء"; "الخميس"; "الجمعة"; "السبت"].

(** [DAYS_OF_WEEK[now.getDay()]]; out of range the index gives
    [undefined]. *)
Definition dayName (now : Date) : option string :=
  DAYS_OF_WEEK !! getDay now.

(** [getHours().toString().padStart(2,'0') + ':' +
    getMinutes().toString().padStart(2,'0')]. *)
Definition hhmm (h m : nat) : string :=
  JS.padStart 2 "0" (JS.toString h) +:+ ":"
  +:+ JS.padStart 2 "0" (JS.toString m).

Definition timeStr (now : Date) : string := hhmm (getHours now) (getMinutes now).

(** ** React state of the component *)

Record State := mkState {
  currentUser : option string;
  classes : list SchoolClass;
  currentTime : Date;
  isTestingSound : bool;
  activeAlarm : option AlarmState
}.

(** ** The recurrence matcher: [currentOngoingClass] *)

(** The callback of [classes.find] at lines 198-201. *)
Definition isOngoing (dayName : option string) (nowStr : string)
    (c : SchoolClass) : bool :=
  if negb (active c) || negb (JS.includes (days c) dayName) then false
  else JS.ge nowStr (startTime c) && JS.lt nowStr (endTime c).

Definition currentOngoingClass (r : State) : option SchoolClass :=
  let dayName := dayName (currentTime r) in
  let nowStr := timeStr (currentTime r) in
  List.find (isOngoing dayName nowStr) (classes r).

(** ** The component's cells and the host *)

Inductive Permission := perm_default | perm_granted | perm_denied.

(** The audio element behind [audioRef]: only [paused] and the playback
    position ([currentTime]) are kept, and [play()] is taken to start
    playback.  The asynchronous probe of [unlockAudio] and the rejection
    handler of [play()], which maintain [isAudioUnlocked], are left out. *)
Record Audio := mkAudio {
  paused : bool;
  position : Z
}.

Record App := mkApp {
  state : State;                    (* the state the next render shows *)
  firedAlarmsRef : gset string;     (* useRef<Set<string>>(new Set()) *)
  lastMinuteRef : Z;                (* useRef<number>(-1) *)
  autoStopTimerRef : option nat;    (* useRef<number | null>(null) *)
  audioRef : option Audio;
  clock : Z;                        (* host time, in milliseconds *)
  timers : list (nat * Z);          (* outstanding timeouts: handle, deadline *)
  nextTimer : nat;                  (* next handle of [setTimeout] *)
  permission : Permission;          (* Notification.permission *)
  notifications : list string       (* titles of the notifications shown *)
}.

Definition setState (f : State → State) (a : App) : App :=
  mkApp (f (state a)) (firedAlarmsRef a) (lastMinuteRef a) (autoStopTimerRef a)
    (audioRef a) (clock a) (timers a) (nextTimer a) (permission a)
    (notifications a).

Definition setCurrentUser (u : option string) : App → App :=
  setState (λ s, mkState u (classes s) (currentTime s) (isTestingSound s)
                   (activeAlarm s)).

Definition setClasses (cls : list SchoolClass) : App → App :=
  setState (λ s, mkState (currentUser s) cls (currentTime s)
                   (isTestingSound s) (activeAlarm s)).

Definition setCurrentTime (now : Date) : App → App :=
  setState (λ s, mkState (currentUser s) (classes s) now (isTestingSound s)
                   (activeAlarm s)).

Definition setIsTestingSound (b : bool) : App → App :=
  setState (λ s, mkState (currentUser s) (classes s) (currentTime s) b
                   (activeAlarm s)).

Definition setActiveAlarm (al : option AlarmState) : App → App :=
  setState (λ s, mkState (currentUser s) (classes s) (currentTime s)
                   (isTestingSound s) al).

Definition setFiredAlarms (f : gset string) (a : App) : App :=
  mkApp (state a) f (lastMinuteRef a) (autoStopTimerRef a) (audioRef a)
    (clock a) (timers a) (nextTimer a) (permission a) (notifications a).

Definition setLastMinute (m : Z) (a : App) : App :=
  mkApp (state a) (firedAlarmsRef a) m (autoStopTimerRef a) (audioRef a)
    (clock a) (timers a) (nextTimer a) (permission a) (notifications a).

Definition setAutoStopTimer (t : option nat) (a : App) : App :=
  mkApp (state a) (firedAlarmsRef a) (lastMinuteRef a) t (audioRef a)
    (clock a) (timers a) (nextTimer a) (permission a) (notifications a).

Definition setAudio (au : option Audio) (a : App) : App :=
  mkApp (state a) (firedAlarmsRef a) (lastMinuteRef a) (autoStopTimerRef a) au
    (clock a) (timers a) (nextTimer a) (permission a) (notifications a).

Definition setClock (t : Z) (a : App) : App :=
  mkApp (state a) (firedAlarmsRef a) (lastMinuteRef a) (autoStopTimerRef a)
    (audioRef a) t (timers a) (nextTimer a) (permission a) (notifications a).

Definition setTimers (ts : list (nat * Z)) (a : App) : App :=
  mkApp (state a) (firedAlarmsRef a) (lastMinuteRef a) (autoStopTimerRef a)
    (audioRef a) (clock a) ts (nextTimer a) (permission a) (notifications a).

(** [new Notification(title, ...)]. *)
Definition showNotification (title : string) (a : App) : App :=
  mkApp (state a) (firedAlarmsRef a) (lastMinuteRef a) (autoStopTimerRef a)
    (audioRef a) (clock a) (timers a) (nextTimer a) (permission a)
    (notifications a ++ [title]).

(** [window.setTimeout(callback, delay)]: the only callback the component
    registers is [() => stopAlarm()], so a timeout is its handle and its
    deadline.  Handles are positive and never reused. *)
Definition setTimeout (delay : Z) (a : App) : nat * App :=
  (nextTimer a,
   mkApp (state a) (firedAlarmsRef a) (lastMinuteRef a) (autoStopTimerRef a)
     (audioRef a) (clock a) (timers a ++ [(nextTimer a, clock a + delay)])
     (S (nextTimer a)) (permission a) (notifications a)).

(** [clearTimeout(handle)]. *)
Definition clearTimeout (h : nat) (a : App) : App :=
  setTimers (filter (λ t, t.1 ≠ h) (timers a)) a.

(** Truthiness of a [number | null]: [null] and [0] are falsy. *)
Definition truthyHandle (h : option nat) : bool :=
  match h with
  | Some k => negb (k =? 0)%nat
  | None => false
  end.

(** ** The alarm life cycle *)

(** [stopAlarm], lines 307-318. *)
Definition stopAlarm (a : App) : App :=
  let a := setActiveAlarm None a in
  let a := setIsTestingSound false a in
  let a :=
    match autoStopTimerRef a with
    | Some h =>
        if truthyHandle (Some h) then setAutoStopTimer None (clearTimeout h a)
        else a
    | None => a
    end in
  match audioRef a with
  | Some au => setAudio (Some (mkAudio true 0)) a
  | None => a
  end.

(** [triggerAlarm], lines 286-305. *)
Definition triggerAlarm (className : string) (type : AlarmType) (a : App) : App :=
  let a := setActiveAlarm (Some (mkAlarmState true className type)) a in
  let a :=
    match audioRef a with
    | Some au => setAudio (Some (mkAudio false 0)) a
    | None => a
    end in
  let a :=
    match autoStopTimerRef a with
    | Some h => if truthyHandle (Some h) then clearTimeout h a else a
    | None => a
    end in
  let '(h, a) := setTimeout 20000 a in
  setAutoStopTimer (Some h) a.

(** [toggleTestSound], lines 361-369, run by the closure of render [r]
    (the call of [unlockAudio] is left out, see [Audio]). *)
Definition toggleTestSound (r : State) (a : App) : App :=
  if isTestingSound r then stopAlarm a
  else triggerAlarm "تجربة الجرس" type_start (setIsTestingSound true a).

(** [handleLogout], lines 332-336. *)
Definition handleLogout (a : App) : App :=
  stopAlarm (setCurrentUser None a).

(** [handleLogin], lines 320-330, for the trimmed input [trimmedUser] (the
    call of [unlockAudio] is left out, see [Audio]). *)
Definition handleLogin (trimmedUser : string) (a : App) : App :=
  if JS.truthy (Some trimmedUser) then setCurrentUser (Some trimmedUser) a
  else a.

(** ** The tick path: [checkAlarms] *)

(** The callback of [classes.forEach] at lines 267-283; the second
    component collects the classes for which the branch ran, that is the
    calls [triggerAlarm(c.name, 'end')] in order. *)
Definition checkClass (dayName : option string) (timeStr : string)
    (acc : App * list SchoolClass) (c : SchoolClass) : App * list SchoolClass :=
  let '(a, hits) := acc in
  if negb (active c) || negb (JS.includes (days c) dayName) then (a, hits)
  else if JS.eq timeStr (endTime c)
          && negb (bool_decide (id c ∈ firedAlarmsRef a)) then
    let a := setFiredAlarms (firedAlarmsRef a ∪ {[ id c ]}) a in
    let a := triggerAlarm (name c) type_end a in
    let a :=
      match permission a with
      | perm_granted => showNotification ("انتهت حصة " +:+ name c) a
      | _ => a
      end in
    (a, hits ++ [c])
  else (a, hits).

(** The rollover at lines 262-265. *)
Definition rollover (currentMinute : nat) (a : App) : App :=
  if bool_decide (Z.of_nat currentMinute ≠ lastMinuteRef a)
  then setLastMinute (Z.of_nat currentMinute) (setFiredAlarms ∅ a)
  else a.

(** [checkAlarms], lines 254-284, run by the closure of render [r]. *)
Definition checkAlarms (r : State) (now : Date) (a : App)
    : App * list SchoolClass :=
  if negb (JS.truthy (currentUser r)) || bool_decide (is_Some (activeAlarm r))
  then (a, [])
  else
    let currentMinute := getMinutes now in
    let dayName := dayName now in
    let timeStr := timeStr now in
    let a := rollover currentMinute a in
    fold_left (checkClass dayName timeStr) (classes r) (a, []).

(** [worker.onmessage], lines 81-85.  The handler is a closure: the
    [currentUser], [classes] and [activeAlarm] that [checkAlarms] reads are
    those of the render [r] that created it (the effect of lines 77-106
    installs it anew when [classes] or [currentUser] change). *)
Definition onmessage (r : State) (now : Date) (a : App)
    : App * list SchoolClass :=
  checkAlarms r now (setCurrentTime now a).

(** ** The host's timeouts *)

(** The host runs the callback of each due timeout of [pending] that is
    still outstanding: the timeout leaves the list, then [stopAlarm] runs
    (the callback registered at lines 302-304). *)
Fixpoint fireDue (pending : list (nat * Z)) (a : App) : App :=
  match pending with
  | [] => a
  | (h, deadline) :: rest =>
      if bool_decide (deadline ≤ clock a)
         && bool_decide ((h, deadline) ∈ timers a)
      then fireDue rest
             (stopAlarm (setTimers (filter (λ t, t.1 ≠ h) (timers a)) a))
      else fireDue rest a
  end.

(** Time passes until the clock shows [t]; a timeout fires as soon as its
    deadline is reached. *)
Definition elapse (t : Z) (a : App) : App :=
  let a := setClock (Z.max t (clock a)) a in
  fireDue (timers a) a.

(** ** Runs of the component *)

(** A tick carries the render whose closure handles it; the other events
    are handled by the closures of the latest render. *)
Inductive Event :=
  | Tick (r : State) (now : Date)   (* a worker message, see [onmessage] *)
  | ToggleTestSound                 (* a click on the test button *)
  | StopAlarm                       (* the stop button or the media key *)
  | Login (trimmedUser : string) (saved : list SchoolClass)
  | Logout
  | Elapse (t : Z).

(** [Login] is [handleLogin] and, when a user is set, the effect of lines
    133-151, which puts the saved classes of the user into the list;
    [Logout] is [handleLogout] followed by the same effect, which empties
    the list. *)
Definition step (a : App) (ev : Event) : App * list SchoolClass :=
  match ev with
  | Tick r now => onmessage r now a
  | ToggleTestSound => (toggleTestSound (state a) a, [])
  | StopAlarm => (stopAlarm a, [])
  | Login trimmedUser saved =>
      (if JS.truthy (Some trimmedUser)
       then setClasses saved (handleLogin trimmedUser a) else a, [])
  | Logout => (setClasses [] (handleLogout a), [])
  | Elapse t => (elapse t a, [])
  end.

(** The component after a list of events, with the alarms the ticks
    triggered, in order. *)
Fixpoint run (evs : list Event) (a : App) : App * list SchoolClass :=
  match evs with
  | [] => (a, [])
  | ev :: rest =>
      let '(a1, h1) := step a ev in
      let '(a2, h2) := run rest a1 in
      (a2, h1 ++ h2)
  end.

(** The component after mount, at host time [t0] and wall-clock [now]:
    the initial values of the [useState] and [useRef] calls of lines 28-60,
    and the audio element the first effect creates. *)
Definition initialApp (now : Date) (t0 : Z) (perm : Permission) : App :=
  mkApp (mkState None [] now false None) ∅ (-1) None (Some (mkAudio true 0))
    t0 [] 1 perm [].

(** The alarms triggered for the class with id [i] among [hits]. *)
Definition firedFor (i : string) (hits : list SchoolClass) : list SchoolClass :=
  filter (λ c, id c = i) hits.

(** A tick is processed when it passes the guard of line 255. *)
Definition processed (r : State) : bool :=
  JS.truthy (currentUser r) && negb (bool_decide (is_Some (activeAlarm r))).

(** ** Loading the saved class list *)

(** Values of [JSON.parse]. *)
#[warnings="-register-all"]
Inductive JSON :=
  | JNull
  | JBool (b : bool)
  | JNumber (n : Z)
  | JString (s : string)
  | JArray (items : list JSON)
  | JObject (fields : list (string * JSON)).

Inductive Outcome := Returns (v : JSON) | Throws.

(** The effect of lines 133-151 on the [classes] cell.  [savedClasses] is
    what [localStorage.getItem] returned and [parsed] the outcome of the call
    [JSON.parse(savedClasses)], consulted only where the call is made.  No
    check is made on the parsed value, so the cell holds a [JSON] value. *)
Definition loadClasses (currentUser savedClasses : option string)
    (parsed : Outcome) (classes : JSON) : JSON :=
  if negb (JS.truthy currentUser) then JArray []
  else if JS.truthy savedClasses then
    match parsed with
    | Returns v => v
    | Throws => classes
    end
  else JArray [].

(** The value of property [k] of an object. *)
Definition getField (k : string) (v : JSON) : option JSON :=
  match v with
  | JObject fields => snd <$> List.find (λ kv, String.eqb kv.1 k) fields
  | _ => None
  end.

Definition isJString (v : option JSON) : bool :=
  match v with Some (JString _) => true | _ => false end.

Definition isJBool (v : option JSON) : bool :=
  match v with Some (JBool _) => true | _ => false end.

Definition isJStringArray (v : option JSON) : bool :=
  match v with
  | Some (JArray items) => forallb (λ x, isJString (Some x)) items
  | _ => false
  end.

(** A record that has the shape the interface [SchoolClass] declares. *)
Definition wellFormedRecord (v : JSON) : bool :=
  isJString (getField "id" v) && isJString (getField "name" v)
  && isJString (getField "startTime" v) && isJString (getField "endTime" v)
  && isJStringArray (getField "days" v) && isJBool (getField "active" v).

(** ** Specification-side notions *)

(** Strict lexicographic order on strings, by code unit. *)
Inductive lexLt : string → string → Prop :=
  | lexLt_nil ch s : lexLt EmptyString (String ch s)
  | lexLt_head c1 s1 c2 s2 :
      (N_of_ascii c1 < N_of_ascii c2)%N → lexLt (String c1 s1) (String c2 s2)
  | lexLt_tail ch s1 s2 : lexLt s1 s2 → lexLt (String ch s1) (String ch s2).

(** [s] lies in the half-open window from [lo] (inclusive) to [hi]
    (exclusive). *)
Definition inWindow (lo hi s : string) : Prop :=
  (lo = s ∨ lexLt lo s) ∧ lexLt s hi.

(** The class is enabled, active on the weekday of the instant, and the
    instant's HH:mm string lies in its window. *)
Definition ongoingAt (now : Date) (c : SchoolClass) : Prop :=
  active c = true
  ∧ (∃ d, dayName now = Some d ∧ d ∈ days c)
  ∧ inWindow (startTime c) (endTime c) (timeStr now).

(** Minutes since midnight. *)
Definition minuteOfDay (now : Date) : nat :=
  (60 * getHours now + getMinutes now)%nat.

(** The instant of a tick, if the event is one. *)
Definition tickDate (ev : Event) : option Date :=
  match ev with
  | Tick _ now => Some now
  | _ => None
  end.

(** The ticks of [evs] that pass the guard all fall in minute [m]. *)
Definition processedInMinute (m : Z) (evs : list Event) : Prop :=
  Forall (λ ev, match ev with
                | Tick r now => processed r = true → Z.of_nat (getMinutes now) = m
                | _ => True
                end) evs.

(** ** Notions used in the statements *)

(** The fired-set the membership checks of a processed tick start from. *)
Definition firedAtCheck (now : Date) (a : App) : gset string :=
  if bool_decide (Z.of_nat (getMinutes now) = lastMinuteRef a)
  then firedAlarmsRef a else ∅.

(** A class the tick at [now] can hit: enabled, active on the weekday, and
    ending at this very HH:mm string. *)
Definition endsAt (now : Date) (c : SchoolClass) : Prop :=
  active c = true
  ∧ JS.includes (days c) (dayName now) = true
  ∧ timeStr now = endTime c.

(** Reading an HH:mm string back. *)
Definition digitOf (ch : ascii) : nat := nat_of_ascii ch - 48.

Definition unHhmm (s : string) : option (nat * nat) :=
  match s with
  | String a (String b (String ":" (String c (String d EmptyString)))) =>
      Some ((10 * digitOf a + digitOf b)%nat, (10 * digitOf c + digitOf d)%nat)
  | _ => None
  end.

(** The minutes since midnight of the ticks of a run, in order. *)
Definition tickMinutes (evs : list Event) : list nat :=
  omap (λ ev, minuteOfDay <$> tickDate ev) evs.

(** The events of one day [wd]: every tick carries an instant of that day
    and the ticks come in the order of the clock. *)
Definition dayRun (wd : nat) (evs : list Event) : Prop :=
  Forall (λ ev, ∀ now, tickDate ev = Some now →
                       validDate now ∧ getDay now = wd) evs
  ∧ StronglySorted le (tickMinutes evs).

(** The end time of the class with id [i] is [e] in the class list of every
    closure that handles a tick of the run. *)
Definition endFixed (i e : string) (evs : list Event) : Prop :=
  Forall (λ ev, ∀ r now, ev = Tick r now →
                ∀ c, c ∈ classes r → id c = i → endTime c = e) evs.

(** Some tick of the run is processed at an instant at which the class with
    id [i] is in the list, enabled, active on the weekday and ending. *)
Definition dueTick (i : string) (evs : list Event) : Prop :=
  ∃ r now c,
    Tick r now ∈ evs ∧ processed r = true
    ∧ c ∈ classes r ∧ id c = i ∧ endsAt now c.

(** Every minute of day [wd] has a tick in the run. *)
Definition coversDay (wd : nat) (evs : list Event) : Prop :=
  ∀ h m, (h < 24)%nat → (m < 60)%nat →
         ∃ r, Tick r (mkDate wd h m) ∈ evs.

(** One tick per minute from minute [from] of day [wd], [count] of them,
    all handled by the closure of render [r]. *)
Definition minuteTicks (r : State) (wd from count : nat) : list Event :=
  (λ k, Tick r (mkDate wd (k / 60) (k mod 60))) <$> seq from count.

(** Every tick of [evs] carries an instant of day [wd]. *)
Definition ticksOfDay (wd : nat) (evs : list Event) : bool :=
  forallb (λ ev, match tickDate ev with
                 | Some now => (getDay now =? wd)%nat
                               && (getHours now <? 24)%nat
                               && (getMinutes now <? 60)%nat
                 | None => true
                 end) evs.

(** Some tick of [evs] carries the instant [h]:[m] of day [wd]. *)
Definition hasTickAt (wd : nat) (evs : list Event) (h m : nat) : bool :=
  existsb (λ ev, match tickDate ev with
                 | Some now => (getDay now =? wd)%nat
                               && (getHours now =? h)%nat
                               && (getMinutes now =? m)%nat
                 | None => false
                 end) evs.

(** Handles are positive, and an outstanding timeout is the one
    [autoStopTimerRef] holds: there is at most one. *)
Definition timerInv (a : App) : Prop :=
  (0 < nextTimer a)%nat
  ∧ (∀ h, autoStopTimerRef a = Some h → h ≠ 0%nat)
  ∧ (timers a = []
     ∨ ∃ h d, autoStopTimerRef a = Some h ∧ timers a = [(h, d)]).

(** ** The class list: the form and the list handlers *)

(** The form states of lines 49-52 with [editingClassId] and [isFormOpen]. *)
Module Form.

Record t := mk {
  newClassName : string;
  startTime : string;
  endTime : string;
  selectedDays : list string;
  editingClassId : option string;
  isFormOpen : bool
}.

End Form.

(** [resetForm], lines 435-442. *)
Definition resetForm : Form.t :=
  Form.mk EmptyString EmptyString EmptyString [] None false.

(** [handleEdit], lines 417-424. *)
Definition handleEdit (schoolClass : SchoolClass) : Form.t :=
  Form.mk (name schoolClass) (startTime schoolClass) (endTime schoolClass)
    (days schoolClass) (Some (id schoolClass)) true.

(** [handleDuplicate], lines 426-433. *)
Definition handleDuplicate (schoolClass : SchoolClass) : Form.t :=
  Form.mk (name schoolClass +:+ " (نسخة)") (startTime schoolClass)
    (endTime schoolClass) (days schoolClass) None true.

(** The callback of [prev.map] at lines 377-381. *)
Definition applyEdit (f : Form.t) (editingClassId : string) (c : SchoolClass)
    : SchoolClass :=
  if String.eqb (id c) editingClassId
  then mkSchoolClass (id c) (Form.newClassName f) (Form.startTime f)
         (Form.endTime f) (Form.selectedDays f) (active c)
  else c.

(** [handleSubmit], lines 371-395, run by the closure of a render with form
    [f]; [dateNow] is the value of [Date.now()] and [prev] the class list
    the updater receives.  The result is the new class list and the new
    form (the call of [unlockAudio] is left out, see [Audio]). *)
Definition handleSubmit (dateNow : nat) (f : Form.t) (prev : list SchoolClass)
    : list SchoolClass * Form.t :=
  if negb (JS.truthy (Some (Form.newClassName f)))
     || negb (JS.truthy (Some (Form.startTime f)))
     || negb (JS.truthy (Some (Form.endTime f)))
     || (length (Form.selectedDays f) =? 0)%nat
  then (prev, f)
  else if JS.truthy (Form.editingClassId f) then
    (applyEdit f (default EmptyString (Form.editingClassId f)) <$> prev,
     resetForm)
  else
    (prev ++ [mkSchoolClass (JS.toString dateNow) (Form.newClassName f)
                (Form.startTime f) (Form.endTime f) (Form.selectedDays f)
                true],
     resetForm).

(** [toggleDay], lines 444-448: the updater of [selectedDays]. *)
Definition toggleDay (day : string) (prev : list string) : list string :=
  if JS.includes prev (Some day) then filter (λ d, d ≠ day) prev
  else prev ++ [day].

(** [confirmDelete], lines 450-455: the new class list and the new
    [classToDelete]. *)
Definition confirmDelete (classToDelete : option string)
    (prev : list SchoolClass) : list SchoolClass * option string :=
  if JS.truthy classToDelete
  then (filter (λ c, id c ≠ default EmptyString classToDelete) prev, None)
  else (prev, classToDelete).

(** [toggleClassActive], lines 457-459: the updater of [classes]. *)
Definition toggleClassActive (i : string) (prev : list SchoolClass)
    : list SchoolClass :=
  (λ c, if String.eqb (id c) i
        then mkSchoolClass (id c) (name c) (startTime c) (endTime c) (days c)
               (negb (active c))
        else c) <$> prev.

(** [arr.splice(start, 1)] and [arr.splice(start, 0, x)] for a start index
    that is not negative; past the end nothing is removed and [x] is
    appended. *)
Definition spliceOut {A} (start : nat) (arr : list A) : list A :=
  take start arr ++ drop (S start) arr.

Definition spliceIn {A} (start : nat) (x : A) (arr : list A) : list A :=
  take start arr ++ x :: drop start arr.

(** [handleDragEnd], lines 405-415, for the refs [dragItem] and
    [dragOverItem] ([handleDragStart] and [handleDragEnter] store an index in
    them): the new array and the two refs.  An index past the end reads
    [undefined] ([None]), which is then put into the array. *)
Definition handleDragEnd (dragItem dragOverItem : option nat)
    (classes : list SchoolClass)
    : list (option SchoolClass) * option nat * option nat :=
  match dragItem, dragOverItem with
  | Some i, Some j =>
      let copyClasses := Some <$> classes in
      let dragItemContent := mjoin (copyClasses !! i) in
      let copyClasses := spliceOut i copyClasses in
      let copyClasses := spliceIn j dragItemContent copyClasses in
      (copyClasses, None, None)
  | _, _ => (Some <$> classes, dragItem, dragOverItem)
  end.

(** ** The background clock: [workerCode] *)

Module Worker.

(** The variable [timer], the intervals the host runs for the worker, and
    the next handle of [setInterval] (handles are positive and not
    reused). *)
Record t := mk {
  timer : option nat;
  intervals : list nat;
  nextHandle : nat
}.

Definition initial : t := mk None [] 1.

(** [clearInterval(h)]; [clearInterval(null)] does nothing. *)
Definition clearInterval (h : option nat) (w : t) : t :=
  match h with
  | Some k => mk (timer w) (filter (λ x, x ≠ k) (intervals w)) (nextHandle w)
  | None => w
  end.

(** [self.onmessage], lines 15-24, for a message whose data is a string. *)
Definition onmessage (data : string) (w : t) : t :=
  if String.eqb data "start" then
    let w := if truthyHandle (timer w) then clearInterval (timer w) w else w in
    mk (Some (nextHandle w)) (intervals w ++ [nextHandle w])
      (S (nextHandle w))
  else if String.eqb data "stop" then clearInterval (timer w) w
  else w.

(** The worker after a list of messages. *)
Definition run (msgs : list string) (w : t) : t :=
  fold_left (λ w data, onmessage data w) msgs w.

(** The worker posts one ['tick'] per second and running interval. *)
Definition ticksPerSecond (w : t) : nat := length (intervals w).

(** The last ["start"] or ["stop"] among the messages, if any. *)
Definition lastControl (msgs : list string) : option string :=
  last (filter (λ d, d = "start" ∨ d = "stop") msgs).

End Worker.

(** ** Persistence: [localStorage] *)

Module Storage.

(** [localStorage] as a finite map; [getItem] of a missing key is [null]. *)
Definition getItem (k : string) (store : gmap string string) : option string :=
  store !! k.

Definition setItem (k v : string) (store : gmap string string)
    : gmap string string := <[k := v]> store.

Definition removeItem (k : string) (store : gmap string string)
    : gmap string string := delete k store.

(** [`user_${currentUser}_`]. *)
Definition userKey (currentUser : string) : string :=
  "user_" +:+ currentUser +:+ "_".

Definition classesKey (u : string) : string := userKey u +:+ "classes".
Definition soundKey (u : string) : string := userKey u +:+ "custom_alarm_sound".
Definition soundNameKey (u : string) : string :=
  userKey u +:+ "custom_alarm_sound_name".

Definition DEFAULT_ALARM_SOUND : string :=
  "https://assets.mixkit.co/active_storage/sfx/2869/2869-preview.mp3".

(** The effect of lines 172-176; [json] is the value of
    [JSON.stringify(classes)]. *)
Definition saveClasses (currentUser : option string) (json : string)
    (store : gmap string string) : gmap string string :=
  match currentUser with
  | Some u => if JS.truthy (Some u) then setItem (classesKey u) json store
              else store
  | None => store
  end.

(** [x || y] on strings. *)
Definition orElse (x : option string) (y : string) : string :=
  if JS.truthy x then default EmptyString x else y.

(** The effect of lines 178-192: the new store, and the [src] given to the
    audio element when there is one. *)
Definition saveSound (currentUser customAlarmSound customSoundName : option string)
    (store : gmap string string) : gmap string string * option string :=
  match currentUser with
  | Some u =>
      if JS.truthy (Some u) then
        (if JS.truthy customAlarmSound
         then setItem (soundNameKey u) (orElse customSoundName EmptyString)
                (setItem (soundKey u) (default EmptyString customAlarmSound)
                   store)
         else removeItem (soundNameKey u) (removeItem (soundKey u) store),
         Some (orElse customAlarmSound DEFAULT_ALARM_SOUND))
      else (store, None)
  | None => (store, None)
  end.

(** Lines 153-166 of the effect that runs when the user changes, for a
    logged-in user [u]: the new [customAlarmSound] and [customSoundName],
    and the [src] given to the audio element. *)
Definition loadSound (u : string) (store : gmap string string)
    : option string * option string * string :=
  let savedSound := getItem (soundKey u) store in
  let savedSoundName := getItem (soundNameKey u) store in
  if JS.truthy savedSound
  then (savedSound, savedSoundName, orElse savedSound DEFAULT_ALARM_SOUND)
  else (None, None, orElse savedSound DEFAULT_ALARM_SOUND).

(** The storage side of [handleLogin] (line 325) and of [handleLogout]
    (line 334). *)
Definition login (trimmedUser : string) (store : gmap string string)
    : gmap string string :=
  if JS.truthy (Some trimmedUser)
  then setItem "last_active_user" trimmedUser store else store.

Definition logout (store : gmap string string) : gmap string string :=
  removeItem "last_active_user" store.

(** The effect of lines 125-130, run once at mount: the new
    [currentUser], starting from [null]. *)
Definition loadUser (store : gmap string string) : option string :=
  let savedUser := getItem "last_active_user" store in
  if JS.truthy savedUser then savedUser else None.

End Storage.

(** ** Notions used in the further statements *)

(** The title of the notification for a class. *)
Definition notificationTitle (c : SchoolClass) : string :=
  "انتهت حصة " +:+ name c.

(** A class as the form lets one through: name and times not empty, at
    least one day. *)
Definition filledIn (c : SchoolClass) : Prop :=
  name c ≠ EmptyString ∧ startTime c ≠ EmptyString
  ∧ endTime c ≠ EmptyString ∧ days c ≠ [].

(** What holds between two events of a run: handles are positive, the
    timeout that [autoStopTimerRef] holds is the only one outstanding and is
    due within 20000 ms, an alarm is active exactly when a timeout is
    outstanding, and the test flag is on only while an alarm is active. *)
Definition coherent (a : App) : Prop :=
  (0 < nextTimer a)%nat
  ∧ ((activeAlarm (state a) = None ∧ isTestingSound (state a) = false
      ∧ autoStopTimerRef a = None ∧ timers a = [])
     ∨ (is_Some (activeAlarm (state a))
        ∧ ∃ h d, autoStopTimerRef a = Some h ∧ h ≠ 0%nat
                 ∧ timers a = [(h, d)] ∧ clock a < d ≤ clock a + 20000)).

(** ** The closure that [worker.onmessage] holds *)

(** The effect of lines 77-106 installs [worker.onmessage] and has the
    dependencies [classes, currentUser] (line 106): React runs it again,
    and with it installs the handler of the current render, only after a
    render in which the class list or the user has changed.  So the
    [currentUser], [classes] and [activeAlarm] that [checkAlarms] reads on
    a tick are those of the render that last changed [classes] or
    [currentUser].  A change of [activeAlarm], [isTestingSound] or
    [currentTime] alone leaves the handler in place. *)
Record Component := mkComponent {
  cells : App;
  handler : State     (* the render whose closure [worker.onmessage] holds *)
}.

(** The effect runs: the handler of the current render is installed. *)
Definition install (a : App) : Component := mkComponent a (state a).

(** What happens to the page. *)
Inductive Action :=
  | WorkerTick (now : Date)          (* the worker posts ['tick'] *)
  | ClickTest                        (* [toggleTestSound] *)
  | PressStop                        (* [stopAlarm]: overlay button, media key *)
  | SubmitLogin (trimmedUser : string) (saved : list SchoolClass)
  | ClickLogout                      (* [handleLogout] *)
  | EditClasses (cls : list SchoolClass)
      (* [setClasses] of [handleSubmit], [confirmDelete],
         [toggleClassActive] or [handleDragEnd], with the new list *)
  | Wait (t : Z).                    (* time passes until the clock shows [t] *)

(** One action: the component afterwards and the classes for which
    [triggerAlarm(c.name, 'end')] was called.  A tick is handled by the
    installed closure; the other handlers are those of the current render.
    Login, logout and an edit of the list change [currentUser] or [classes]
    and so end with the effect installing the handler anew.  The test
    button, the logout button and the handlers that edit the list belong to
    the main view, which is rendered only with a user logged in (line 462):
    without a user these actions are not there. *)
Definition act (c : Component) (x : Action) : Component * list SchoolClass :=
  match x with
  | WorkerTick now =>
      let res := onmessage (handler c) now (cells c) in
      (mkComponent res.1 (handler c), res.2)
  | ClickTest =>
      if JS.truthy (currentUser (state (cells c)))
      then (mkComponent (toggleTestSound (state (cells c)) (cells c))
              (handler c), [])
      else (c, [])
  | PressStop => (mkComponent (stopAlarm (cells c)) (handler c), [])
  | SubmitLogin trimmedUser saved =>
      if JS.truthy (Some trimmedUser)
      then (install (setClasses saved (handleLogin trimmedUser (cells c))), [])
      else (c, [])
  | ClickLogout =>
      if JS.truthy (currentUser (state (cells c)))
      then (install (setClasses [] (handleLogout (cells c))), [])
      else (c, [])
  | EditClasses cls =>
      if JS.truthy (currentUser (state (cells c)))
      then (install (setClasses cls (cells c)), [])
      else (c, [])
  | Wait t => (mkComponent (elapse t (cells c)) (handler c), [])
  end.

(** The component after a list of actions, with the alarms the ticks
    triggered, in order. *)
Fixpoint acts (xs : list Action) (c : Component)
    : Component * list SchoolClass :=
  match xs with
  | [] => (c, [])
  | x :: rest =>
      let '(c1, h1) := act c x in
      let '(c2, h2) := acts rest c1 in
      (c2, h1 ++ h2)
  end.

(** The component after mount: the effect has installed the handler of the
    first render. *)
Definition mounted (now : Date) (t0 : Z) (perm : Permission) : Component :=
  install (initialApp now t0 perm).

(** The event of [step] that an action amounts to, each tick with the
    render of the installed handler.  An edit of the list leaves the
    component as a login of the same user with that list would. *)
Definition eventOf (c : Component) (x : Action) : option Event :=
  match x with
  | WorkerTick now => Some (Tick (handler c) now)
  | ClickTest =>
      if JS.truthy (currentUser (state (cells c))) then Some ToggleTestSound
      else None
  | PressStop => Some StopAlarm
  | SubmitLogin trimmedUser saved =>
      if JS.truthy (Some trimmedUser) then Some (Login trimmedUser saved)
      else None
  | ClickLogout =>
      if JS.truthy (currentUser (state (cells c))) then Some Logout else None
  | EditClasses cls =>
      match currentUser (state (cells c)) with
      | Some u => if JS.truthy (Some u) then Some (Login u cls) else None
      | None => None
      end
  | Wait t => Some (Elapse t)
  end.

(** The events a list of actions amounts to. *)
Fixpoint trace (c : Component) (xs : list Action) : list Event :=
  match xs with
  | [] => []
  | x :: rest =>
      match eventOf c x with
      | Some ev => ev :: trace (act c x).1 rest
      | None => trace (act c x).1 rest
      end
  end.

(** One tick of the worker per minute from minute [from] of day [wd],
    [count] of them. *)
Definition workerTicks (wd from count : nat) : list Action :=
  (λ k, WorkerTick (mkDate wd (k / 60) (k mod 60))) <$> seq from count.

(** The test event of [toggleTestSound]. *)
Definition testEvent : AlarmState :=
  mkAlarmState true "تجربة الجرس" type_start.

(** The end event of a class, as [checkAlarms] triggers it. *)
Definition endEvent (c : SchoolClass) : AlarmState :=
  mkAlarmState true (name c) type_end.

(** * Properties *)

Arguments triggerAlarm : simpl never.
Arguments stopAlarm : simpl never.
Arguments toggleTestSound : simpl never.
Arguments handleLogout : simpl never.
Arguments handleLogin : simpl never.
Arguments checkAlarms : simpl never.
Arguments onmessage : simpl never.
Arguments elapse : simpl never.

(** ** Strings and instants *)

Lemma lt_lexLt (a b : string) : JS.lt a b = true ↔ lexLt a b.
Proof.
  unfold JS.lt, String.ltb. revert b.
  induction a as [|c1 a IH]; intros [|c2 b]; simpl.
  - split; [discriminate | inversion 1].
  - split; [intros _; constructor | reflexivity].
  - split; [discriminate | inversion 1].
  - unfold Ascii.compare.
    destruct (N.compare_spec (N_of_ascii c1) (N_of_ascii c2)) as [E|L|G].
    + assert (c1 = c2) as ->.
      { rewrite <- (ascii_N_embedding c1), <- (ascii_N_embedding c2).
        by rewrite E. }
      rewrite IH. split; [by constructor|].
      inversion 1; subst; [lia | done].
    + split; [intros _; by constructor | reflexivity].
    + split; [discriminate|].
      inversion 1; subst; lia.
Qed.

Lemma ge_lexLe (a b : string) : JS.ge a b = true ↔ (b = a ∨ lexLt b a).
Proof.
  unfold JS.ge. rewrite negb_true_iff, <- lt_lexLt.
  unfold JS.lt, String.ltb.
  pose proof (String.compare_antisym a b) as Hab.
  pose proof (String.compare_antisym a a) as Haa.
  destruct (String.compare a b) eqn:Hc.
  - apply String.compare_eq_iff in Hc. subst. split; [by left | done].
  - split; [done|]. intros [->|H].
    + rewrite Hc in Haa. discriminate.
    + destruct (String.compare b a); simpl in Hab; discriminate.
  - split; [|done]. intros _. right.
    destruct (String.compare b a); simpl in Hab; done.
Qed.

(** ** The ongoing class *)

Lemma includes_spec (arr : list string) (x : option string) :
  JS.includes arr x = true ↔ ∃ d, x = Some d ∧ d ∈ arr.
Proof.
  destruct x as [d|]; simpl.
  - rewrite bool_decide_eq_true. split; [eauto|]. by intros (? & [= <-] & ?).
  - split; [done|]. by intros (? & ? & _).
Qed.

Lemma isOngoing_spec (now : Date) (c : SchoolClass) :
  isOngoing (dayName now) (timeStr now) c = true ↔ ongoingAt now c.
Proof.
  unfold isOngoing, ongoingAt, inWindow.
  rewrite <- includes_spec, <- ge_lexLe, <- lt_lexLt.
  destruct (active c), (JS.includes (days c) (dayName now)); simpl;
    rewrite ?andb_true_iff; intuition congruence.
Qed.

Lemma find_first {A} (p : A → bool) (l : list A) (x : A) :
  List.find p l = Some x ↔
  ∃ before after, l = before ++ x :: after ∧ p x = true
                  ∧ Forall (λ y, p y = false) before.
Proof.
  induction l as [|y l IH]; simpl.
  - split; [done|]. intros ([|??] & ? & ? & _); done.
  - destruct (p y) eqn:Hy.
    + split.
      * intros [= ->]. by exists [], l.
      * intros ([|z before] & after & Hl & Hx & Hb); simplify_eq/=; [done|].
        apply Forall_cons in Hb as [Hz _]. congruence.
    + rewrite IH. split.
      * intros (before & after & -> & Hx & Hb).
        exists (y :: before), after. by repeat split; [|constructor].
      * intros ([|z before] & after & Hl & Hx & Hb); simplify_eq/=;
          [congruence|].
        apply Forall_cons in Hb as [_ Hb]. eauto.
Qed.

Lemma find_none {A} (p : A → bool) (l : list A) :
  List.find p l = None ↔ Forall (λ y, p y = false) l.
Proof.
  induction l as [|y l IH]; simpl; [by split|].
  destruct (p y) eqn:Hy.
  - split; [done|]. intros [??]%Forall_cons. congruence.
  - rewrite IH, Forall_cons. tauto.
Qed.

Lemma not_ongoing (now : Date) (c : SchoolClass) :
  isOngoing (dayName now) (timeStr now) c = false ↔ ¬ ongoingAt now c.
Proof. rewrite <- isOngoing_spec. by destruct (isOngoing _ _ _). Qed.

Lemma currentOngoingClass_first (r : State) (c : SchoolClass) :
  currentOngoingClass r = Some c ↔
  ∃ before after,
    classes r = before ++ c :: after
    ∧ ongoingAt (currentTime r) c
    ∧ Forall (λ c', ¬ ongoingAt (currentTime r) c') before.
Proof.
  unfold currentOngoingClass. rewrite find_first.
  setoid_rewrite isOngoing_spec.
  by setoid_rewrite (Forall_iff _ _ _ (not_ongoing (currentTime r))).
Qed.

(** C5. A class is reported as ongoing iff it is enabled, active on the
    weekday of the instant and the instant's HH:mm string lies in the window
    from its start time (inclusive) to its end time (exclusive), and it is
    the first class of the list for which this holds; no class is reported
    iff it holds for none.  A class from "08:00" to "08:30" is ongoing at
    08:00 and at 08:29 and not at 08:30. *)
Theorem ongoing_class_semantics :
  (∀ r c,
     currentOngoingClass r = Some c ↔
     ∃ before after,
       classes r = before ++ c :: after
       ∧ ongoingAt (currentTime r) c
       ∧ Forall (λ c', ¬ ongoingAt (currentTime r) c') before)
  ∧ (∀ r,
       currentOngoingClass r = None ↔
       Forall (λ c, ¬ ongoingAt (currentTime r) c) (classes r))
  ∧ (∀ i n ds wd d u t al,
       DAYS_OF_WEEK !! wd = Some d → d ∈ ds →
       let c := mkSchoolClass i n "08:00" "08:30" ds true in
       let at_ h m := mkState u [c] (mkDate wd h m) t al in
       currentOngoingClass (at_ 8 0)%nat = Some c
       ∧ currentOngoingClass (at_ 8 29)%nat = Some c
       ∧ currentOngoingClass (at_ 8 30)%nat = None).
Proof.
  split; [|split].
  - apply currentOngoingClass_first.
  - intros r. unfold currentOngoingClass. rewrite find_none.
    apply Forall_iff, not_ongoing.
  - intros i n ds wd d u t al Hwd Hd c at_.
    unfold currentOngoingClass, isOngoing, dayName; simpl.
    rewrite Hwd; simpl. rewrite (bool_decide_eq_true_2 _ Hd). done.
Qed.

(** The same at a concrete class and weekday. *)
Lemma ongoing_class_semantics_witness :
  let c := mkSchoolClass "1" "Math" "08:00" "08:30" ["الأحد"] true in
  let at_ h m := mkState (Some "u") [c] (mkDate 0 h m) false None in
  currentOngoingClass (at_ 8 0)%nat = Some c
  ∧ currentOngoingClass (at_ 8 29)%nat = Some c
  ∧ currentOngoingClass (at_ 8 30)%nat = None.
Proof.
  apply (proj2 (proj2 ongoing_class_semantics)
           "1" "Math" ["الأحد"] 0%nat "الأحد").
  - reflexivity.
  - apply list_elem_of_here.
Defined.

(** A property of [hhmm] over the 1440 minutes of a day, by enumeration. *)
Lemma all_minutes (P : nat → nat → bool) :
  forallb (λ h, forallb (P h) (seq 0 60)) (seq 0 24) = true →
  ∀ h m, (h < 24)%nat → (m < 60)%nat → P h m = true.
Proof.
  intros HP h m Hh Hm.
  rewrite forallb_forall in HP. specialize (HP h).
  rewrite forallb_forall in HP. apply HP; apply in_seq; lia.
Qed.

Lemma hhmm_not_before_midnight (h m : nat) :
  (h < 24)%nat → (m < 60)%nat → JS.lt (hhmm h m) "00:00" = false.
Proof.
  intros Hh Hm. apply negb_true_iff.
  apply (all_minutes (λ h m, negb (JS.lt (hhmm h m) "00:00"))); [|done..].
  vm_compute. reflexivity.
Qed.

(** The claim of C7 fails: a class from "22:00" to "00:00", enabled and
    active on Sunday, is not reported as ongoing on Sunday at 23:00, although
    23:00 is at or after its start time. *)
Lemma end_of_day_counterexample :
  let c := mkSchoolClass "1" "Night" "22:00" "00:00" ["الأحد"] true in
  let now := mkDate 0 23 0 in
  let r := mkState (Some "u") [c] now false None in
  active c = true
  ∧ JS.includes (days c) (dayName now) = true
  ∧ JS.ge (timeStr now) (startTime c) = true
  ∧ currentOngoingClass r = None.
Proof. repeat split; done. Qed.

(** C7, amended. A class whose end time is "00:00" is never reported as
    ongoing: on no instant of a day is the HH:mm string below "00:00", so
    the window of such a class is empty. *)
Theorem midnight_end_never_ongoing (r : State) (c : SchoolClass) :
  validDate (currentTime r) →
  endTime c = "00:00" →
  currentOngoingClass r ≠ Some c ∧ ¬ ongoingAt (currentTime r) c.
Proof.
  intros (_ & Hh & Hm) He.
  assert (¬ ongoingAt (currentTime r) c) as Hno.
  { intros (_ & _ & _ & Hlt). apply lt_lexLt in Hlt.
    rewrite He in Hlt. unfold timeStr in Hlt.
    by rewrite hhmm_not_before_midnight in Hlt. }
  split; [|done].
  intros (_ & _ & _ & Hc & _)%currentOngoingClass_first. done.
Qed.

(** The same for a concrete class list on Sunday at 23:00. *)
Lemma midnight_end_never_ongoing_witness :
  let c := mkSchoolClass "1" "Night" "22:00" "00:00" ["الأحد"] true in
  let r := mkState (Some "u") [c] (mkDate 0 23 0) false None in
  currentOngoingClass r ≠ Some c ∧ ¬ ongoingAt (currentTime r) c.
Proof.
  apply midnight_end_never_ongoing.
  - unfold validDate; simpl; lia.
  - reflexivity.
Defined.

(** ** Frame lemmas: which cells each function leaves alone *)

Ltac by_cells a :=
  destruct a as [? ? ? [[|?]|] [?|] ? ? ? ? ?]; reflexivity.

Lemma triggerAlarm_fired n t a :
  firedAlarmsRef (triggerAlarm n t a) = firedAlarmsRef a.
Proof. by_cells a. Qed.

Lemma triggerAlarm_lastMinute n t a :
  lastMinuteRef (triggerAlarm n t a) = lastMinuteRef a.
Proof. by_cells a. Qed.

Lemma triggerAlarm_activeAlarm n t a :
  activeAlarm (state (triggerAlarm n t a)) = Some (mkAlarmState true n t).
Proof. by_cells a. Qed.

Lemma stopAlarm_fired a : firedAlarmsRef (stopAlarm a) = firedAlarmsRef a.
Proof. by_cells a. Qed.

Lemma stopAlarm_lastMinute a : lastMinuteRef (stopAlarm a) = lastMinuteRef a.
Proof. by_cells a. Qed.

Lemma stopAlarm_activeAlarm a : activeAlarm (state (stopAlarm a)) = None.
Proof. by_cells a. Qed.

Lemma fireDue_tracker pending a :
  firedAlarmsRef (fireDue pending a) = firedAlarmsRef a
  ∧ lastMinuteRef (fireDue pending a) = lastMinuteRef a.
Proof.
  revert a. induction pending as [|[h d] rest IH]; intros a; simpl; [done|].
  case_match; [|apply IH].
  destruct (IH (stopAlarm (setTimers (filter (λ t, t.1 ≠ h) (timers a)) a)))
    as [-> ->].
  by rewrite stopAlarm_fired, stopAlarm_lastMinute.
Qed.

(** Only a tick writes the fired-set and the last-seen minute. *)
Lemma step_other_tracker (a : App) (ev : Event) :
  tickDate ev = None →
  firedAlarmsRef (step a ev).1 = firedAlarmsRef a
  ∧ lastMinuteRef (step a ev).1 = lastMinuteRef a
  ∧ (step a ev).2 = [].
Proof.
  destruct ev as [r now| | |u saved| |t]; simpl; [done|..]; intros _.
  - unfold toggleTestSound. case_match.
    + by rewrite stopAlarm_fired, stopAlarm_lastMinute.
    + by rewrite triggerAlarm_fired, triggerAlarm_lastMinute.
  - by rewrite stopAlarm_fired, stopAlarm_lastMinute.
  - unfold handleLogin. by repeat case_match.
  - unfold handleLogout.
    change (firedAlarmsRef (setClasses [] ?x)) with (firedAlarmsRef x).
    change (lastMinuteRef (setClasses [] ?x)) with (lastMinuteRef x).
    by rewrite stopAlarm_fired, stopAlarm_lastMinute.
  - unfold elapse. by destruct (fireDue_tracker
      (timers (setClock (t `max` clock a) a)) (setClock (t `max` clock a) a))
      as [-> ->].
Qed.

(** ** One tick *)

Lemma checkClass_spec dn ts a hits c :
  let res := checkClass dn ts (a, hits) c in
  lastMinuteRef res.1 = lastMinuteRef a
  ∧ ((res.2 = hits ∧ firedAlarmsRef res.1 = firedAlarmsRef a
      ∧ ¬ (active c = true ∧ JS.includes (days c) dn = true
           ∧ ts = endTime c ∧ id c ∉ firedAlarmsRef a))
     ∨ (res.2 = hits ++ [c]
        ∧ firedAlarmsRef res.1 = firedAlarmsRef a ∪ {[ id c ]}
        ∧ active c = true ∧ JS.includes (days c) dn = true
        ∧ ts = endTime c ∧ id c ∉ firedAlarmsRef a)).
Proof.
  unfold checkClass.
  destruct (active c) eqn:Ha, (JS.includes (days c) dn) eqn:Hd; cbn;
    try (split; [done|left; repeat split; try done; intros (?&?&?&?); done]).
  unfold JS.eq. destruct (String.eqb_spec ts (endTime c)) as [He|He]; cbn;
    [|split; [done|left; repeat split; try done; intros (?&?&?&?); done]].
  destruct (decide (id c ∈ firedAlarmsRef a)) as [Hin|Hin].
  - rewrite (bool_decide_eq_true_2 _ Hin); cbn.
    split; [done|left; repeat split; try done; intros (?&?&?&?); done].
  - rewrite (bool_decide_eq_false_2 _ Hin); cbn [negb andb fst snd].
    set (a1 := setFiredAlarms (firedAlarmsRef a ∪ {[id c]}) a).
    set (a2 := triggerAlarm (name c) type_end a1).
    assert (firedAlarmsRef a2 = firedAlarmsRef a ∪ {[id c]}) as Hf2
      by (unfold a2; by rewrite triggerAlarm_fired).
    assert (lastMinuteRef a2 = lastMinuteRef a) as Hl2
      by (unfold a2; by rewrite triggerAlarm_lastMinute).
    split.
    + by destruct (permission a2).
    + right. repeat split; try done. by destruct (permission a2).
Qed.

Lemma forEach_spec dn ts cls a hits :
  let res := fold_left (checkClass dn ts) cls (a, hits) in
  lastMinuteRef res.1 = lastMinuteRef a
  ∧ ∃ new,
      res.2 = hits ++ new
      ∧ firedAlarmsRef res.1 = firedAlarmsRef a ∪ list_to_set (id <$> new)
      ∧ NoDup (id <$> new)
      ∧ (∀ c, c ∈ new →
           c ∈ cls ∧ active c = true ∧ JS.includes (days c) dn = true
           ∧ ts = endTime c ∧ id c ∉ firedAlarmsRef a)
      ∧ (∀ c, c ∈ cls → active c = true → JS.includes (days c) dn = true →
           ts = endTime c → id c ∈ firedAlarmsRef res.1).
Proof.
  revert a hits. induction cls as [|c cls IH]; intros a hits res.
  - subst res. cbn [fold_left fst snd]. split; [done|]. exists [].
    rewrite app_nil_r. cbn [fmap list_fmap list_to_set foldr].
    split_and!; [done|set_solver|constructor|by intros ? ?%elem_of_nil..].
  - destruct (checkClass_spec dn ts a hits c) as [Hm Hc].
    subst res. cbn [fold_left].
    destruct (checkClass dn ts (a, hits) c) as [a1 hits1] eqn:Hstep.
    cbn [fst snd] in Hm, Hc.
    destruct (IH a1 hits1)
      as (Hm' & new & Hhits & Hfired & Hnd & Hsound & Hcompl).
    split; [congruence|].
    destruct Hc as [(-> & Hf1 & Hno)|(-> & Hf1 & Hact & Hday & Hts & Hnot)].
    + exists new. rewrite Hf1 in *. split_and!; try done.
      * intros c' Hc'. destruct (Hsound c' Hc') as (? & ? & ? & ? & ?).
        split_and!; try done. by right.
      * intros c' [->|Hc']%elem_of_cons Ha Hd He; [|by apply Hcompl].
        rewrite Hfired.
        destruct (decide (id c ∈ firedAlarmsRef a)); [set_solver|].
        exfalso. by apply Hno.
    + exists (c :: new). rewrite <- app_assoc in Hhits.
      rewrite Hf1 in *. split_and!; try done.
      * rewrite Hfired, fmap_cons, list_to_set_cons. set_solver.
      * rewrite fmap_cons. constructor; [|done].
        intros (c' & Hid & Hc')%list_elem_of_fmap.
        destruct (Hsound c' Hc') as (_ & _ & _ & _ & Hn). set_solver.
      * intros c' [->|Hc']%elem_of_cons.
        -- split_and!; try done. by left.
        -- destruct (Hsound c' Hc') as (? & ? & ? & ? & Hn).
           split_and!; try done; [by right | set_solver].
      * intros c' [->|Hc']%elem_of_cons Ha Hd He; [|by apply Hcompl].
        rewrite Hfired. set_solver.
Qed.

Lemma rollover_fired now a :
  firedAlarmsRef (rollover (getMinutes now) a) = firedAtCheck now a.
Proof.
  unfold rollover, firedAtCheck.
  destruct (decide (Z.of_nat (getMinutes now) = lastMinuteRef a)) as [E|E].
  - by rewrite (bool_decide_eq_false_2 _ (λ H, H E)), (bool_decide_eq_true_2 _ E).
  - by rewrite (bool_decide_eq_true_2 _ E), (bool_decide_eq_false_2 _ E).
Qed.

Lemma rollover_lastMinute now a :
  lastMinuteRef (rollover (getMinutes now) a) = Z.of_nat (getMinutes now).
Proof.
  unfold rollover. case_bool_decide as E; [done|].
  destruct (decide (Z.of_nat (getMinutes now) = lastMinuteRef a)); [done|].
  by destruct E.
Qed.

Lemma processed_guard r :
  negb (JS.truthy (currentUser r)) || bool_decide (is_Some (activeAlarm r))
  = negb (processed r).
Proof.
  unfold processed.
  by destruct (JS.truthy _), (bool_decide _).
Qed.

(** A tick that does not pass the guard changes nothing but the displayed
    time. *)
Lemma onmessage_blocked r now a :
  processed r = false → onmessage r now a = (setCurrentTime now a, []).
Proof.
  intros H. unfold onmessage, checkAlarms.
  by rewrite processed_guard, H.
Qed.

(** What a processed tick does to the tracker, and which classes it hits. *)
Lemma onmessage_processed r now a :
  processed r = true →
  let res := onmessage r now a in
  lastMinuteRef res.1 = Z.of_nat (getMinutes now)
  ∧ firedAlarmsRef res.1 = firedAtCheck now a ∪ list_to_set (id <$> res.2)
  ∧ NoDup (id <$> res.2)
  ∧ (∀ c, c ∈ res.2 → c ∈ classes r ∧ endsAt now c ∧ id c ∉ firedAtCheck now a)
  ∧ (∀ c, c ∈ classes r → endsAt now c → id c ∈ firedAlarmsRef res.1).
Proof.
  intros H. unfold onmessage, checkAlarms.
  rewrite processed_guard, H. cbn.
  set (a0 := rollover (getMinutes now) (setCurrentTime now a)).
  destruct (forEach_spec (dayName now) (timeStr now) (classes r) a0 [])
    as (Hm & new & Hhits & Hfired & Hnd & Hsound & Hcompl).
  cbn in Hhits. rewrite Hhits in *.
  assert (firedAlarmsRef a0 = firedAtCheck now a) as Hf0.
  { unfold a0. rewrite rollover_fired. unfold firedAtCheck. by destruct a. }
  assert (lastMinuteRef a0 = Z.of_nat (getMinutes now)) as Hl0
    by apply rollover_lastMinute.
  rewrite Hf0 in *. repeat split; try congruence.
  - by apply Hsound.
  - by apply Hsound.
  - by apply Hsound.
  - by apply Hsound.
  - by apply Hsound.
  - intros c Hc (?&?&?). by apply Hcompl.
Qed.

(** ** The guard of a tick *)

(** The guard of line 255.  When the render that [checkAlarms] reads has no
    user or an active alarm, [checkAlarms] returns at once: the fired-set,
    the last-seen minute, the alarm state, the timeouts and the notifications
    are what they were, and nothing is triggered; the whole tick changes the
    displayed time only. *)
Lemma guard_returns_at_once (r : State) (now : Date) (a : App) :
  currentUser r = None ∨ is_Some (activeAlarm r) →
  checkAlarms r now a = (a, [])
  ∧ onmessage r now a = (setCurrentTime now a, [])
  ∧ firedAlarmsRef (onmessage r now a).1 = firedAlarmsRef a
  ∧ lastMinuteRef (onmessage r now a).1 = lastMinuteRef a
  ∧ activeAlarm (state (onmessage r now a).1) = activeAlarm (state a)
  ∧ isTestingSound (state (onmessage r now a).1) = isTestingSound (state a)
  ∧ autoStopTimerRef (onmessage r now a).1 = autoStopTimerRef a
  ∧ timers (onmessage r now a).1 = timers a
  ∧ audioRef (onmessage r now a).1 = audioRef a
  ∧ notifications (onmessage r now a).1 = notifications a.
Proof.
  intros Hguard.
  assert (processed r = false) as Hp.
  { unfold processed. destruct Hguard as [->|Hal]; [done|].
    rewrite (bool_decide_eq_true_2 _ Hal). apply andb_false_r. }
  split.
  - unfold checkAlarms. by rewrite processed_guard, Hp.
  - rewrite (onmessage_blocked _ _ _ Hp). by destruct a.
Qed.

(** ** At most one firing per class and minute *)

Lemma firedFor_app i h1 h2 :
  firedFor i (h1 ++ h2) = firedFor i h1 ++ firedFor i h2.
Proof. apply filter_app. Qed.

Lemma firedFor_nil i hits :
  (∀ c, c ∈ hits → id c ≠ i) → firedFor i hits = [].
Proof.
  intros H. unfold firedFor. induction hits as [|c hits IH]; [done|].
  rewrite filter_cons. case_decide as E.
  - destruct (H c); [by left | done].
  - apply IH. intros c' Hc'. apply H. by right.
Qed.

Lemma firedFor_elem i hits :
  firedFor i hits ≠ [] → i ∈ (list_to_set (id <$> hits) : gset string).
Proof.
  intros H. destruct (firedFor i hits) as [|c rest] eqn:E; [done|].
  assert (c ∈ firedFor i hits) as Hc by (rewrite E; by left).
  apply list_elem_of_filter in Hc as [<- Hc].
  apply elem_of_list_to_set, list_elem_of_fmap. eauto.
Qed.

Lemma firedFor_NoDup i hits :
  NoDup (id <$> hits) → (length (firedFor i hits) ≤ 1)%nat.
Proof.
  unfold firedFor. induction hits as [|c hits IH]; [cbn; lia|].
  rewrite fmap_cons. intros [Hc Hnd]%NoDup_cons.
  rewrite filter_cons. case_decide as E.
  - fold (firedFor i hits). rewrite firedFor_nil; [cbn; lia|].
    intros c' Hc' Hid. apply Hc, list_elem_of_fmap. exists c'. split; congruence.
  - by apply IH.
Qed.

(** An event either leaves the tracker alone and triggers nothing, or is a
    processed tick. *)
Lemma step_cases (a : App) (ev : Event) :
  (firedAlarmsRef (step a ev).1 = firedAlarmsRef a
   ∧ lastMinuteRef (step a ev).1 = lastMinuteRef a
   ∧ (step a ev).2 = []
   ∧ ∀ r now, ev = Tick r now → processed r = false)
  ∨ (∃ r now, ev = Tick r now ∧ processed r = true).
Proof.
  destruct ev as [r now| | |u saved| |t].
  2-6: left;
       match goal with
       | |- context [step ?x ?e] =>
           destruct (step_other_tracker x e eq_refl) as (-> & -> & ->)
       end; by split_and!.
  destruct (processed r) eqn:Hp; [right; eauto|left].
  cbn [step]. rewrite (onmessage_blocked _ _ _ Hp). destruct a; cbn.
  split_and!; try done. by intros ?? [= <- <-].
Qed.

Lemma run_cons ev evs a :
  run (ev :: evs) a
  = ((run evs (step a ev).1).1, (step a ev).2 ++ (run evs (step a ev).1).2).
Proof.
  cbn. destruct (step a ev) as [a1 h1]; cbn.
  by destruct (run evs a1).
Qed.

Lemma run_app evs1 evs2 a :
  run (evs1 ++ evs2) a
  = ((run evs2 (run evs1 a).1).1, (run evs1 a).2 ++ (run evs2 (run evs1 a).1).2).
Proof.
  revert a. induction evs1 as [|ev evs1 IH]; intros a.
  - cbn. by destruct (run evs2 a).
  - rewrite <- app_comm_cons, !run_cons, IH. cbn. by rewrite app_assoc.
Qed.

(** Once an id is in the fired-set for minute [m], no tick of that minute
    triggers it again. *)
Lemma no_refire (i : string) (m : Z) (evs : list Event) (a : App) :
  i ∈ firedAlarmsRef a → lastMinuteRef a = m → processedInMinute m evs →
  firedFor i (run evs a).2 = []
  ∧ i ∈ firedAlarmsRef (run evs a).1 ∧ lastMinuteRef (run evs a).1 = m.
Proof.
  revert a. induction evs as [|ev evs IH]; intros a Hi Hm Hevs; [done|].
  apply Forall_cons in Hevs as [Hev Hevs].
  rewrite run_cons. cbn [fst snd]. rewrite firedFor_app.
  destruct (step_cases a ev) as [(Hf & Hl & Hh & _)|(r & now & -> & Hp)].
  - rewrite Hh. apply IH; [by rewrite Hf | congruence | done].
  - specialize (Hev Hp).
    destruct (onmessage_processed r now a Hp) as (Hl & Hf & _ & Hsound & _).
    assert (firedAtCheck now a = firedAlarmsRef a) as Hbase.
    { unfold firedAtCheck. rewrite bool_decide_eq_true_2; congruence. }
    rewrite Hbase in *. cbn [step].
    rewrite (firedFor_nil i (onmessage r now a).2).
    + apply IH; [rewrite Hf; set_solver | congruence | done].
    + intros c Hc Hid. destruct (Hsound c Hc) as (_ & _ & Hn). congruence.
Qed.

(** C2. The membership test and insertion of [checkAlarms] is positive at
    most once for a class id within a minute: over any run whose processed
    ticks all fall in the same minute, whatever else happens in between, at
    most one alarm is triggered for the id. *)
Theorem fires_at_most_once_per_minute
    (i : string) (m : Z) (evs : list Event) (a : App) :
  processedInMinute m evs →
  (length (firedFor i (run evs a).2) ≤ 1)%nat.
Proof.
  revert a. induction evs as [|ev evs IH]; intros a Hevs; [cbn; lia|].
  pose proof Hevs as [Hev Hevs']%Forall_cons.
  rewrite run_cons. cbn [fst snd]. rewrite firedFor_app, length_app.
  destruct (step_cases a ev) as [(Hf & Hl & Hh & _)|(r & now & -> & Hp)].
  - rewrite Hh. by apply IH.
  - specialize (Hev Hp). cbn [step].
    destruct (onmessage_processed r now a Hp) as (Hl & Hf & Hnd & _ & _).
    pose proof (firedFor_NoDup i _ Hnd) as Hlen.
    destruct (firedFor i (onmessage r now a).2) as [|c rest] eqn:E.
    + by apply IH.
    + assert (i ∈ firedAlarmsRef (onmessage r now a).1) as Hin.
      { rewrite Hf. apply elem_of_union_r, firedFor_elem. by rewrite E. }
      destruct (no_refire i m evs _ Hin (eq_trans Hl Hev) Hevs') as (-> & _).
      cbn in *. lia.
Qed.

(** Three ticks in minute 30 with a stop in between: one alarm. *)
Lemma fires_at_most_once_per_minute_witness :
  let c := mkSchoolClass "1" "Math" "08:00" "08:30" ["الأحد"] true in
  let now := mkDate 0 8 30 in
  let r := mkState (Some "u") [c] now false None in
  let evs := [Tick r now; StopAlarm; Tick r now; Tick r now] in
  (length (firedFor "1" (run evs (initialApp now 0 perm_granted)).2) ≤ 1)%nat.
Proof.
  intros c now r evs.
  apply (fires_at_most_once_per_minute "1" 30 evs).
  unfold evs, processedInMinute.
  repeat (constructor; try done).
Defined.

(** ** The fired-set lives for one minute *)

Lemma firedAtCheck_same now a :
  Z.of_nat (getMinutes now) = lastMinuteRef a →
  firedAtCheck now a = firedAlarmsRef a.
Proof. intros E. unfold firedAtCheck. by rewrite bool_decide_eq_true_2. Qed.

Lemma firedAtCheck_other now a :
  Z.of_nat (getMinutes now) ≠ lastMinuteRef a → firedAtCheck now a = ∅.
Proof. intros E. unfold firedAtCheck. by rewrite bool_decide_eq_false_2. Qed.

Lemma elem_of_hit_ids (i : string) (hits : list SchoolClass) :
  i ∈ (list_to_set (id <$> hits) : gset string) ↔ ∃ c, c ∈ hits ∧ id c = i.
Proof.
  rewrite elem_of_list_to_set, list_elem_of_fmap. naive_solver.
Qed.

(** Where an id of the fired-set comes from: it was there when the run
    started and no processed tick changed the minute since, or a processed
    tick of the run inserted it and every later processed tick fell in the
    same minute. *)
Lemma fired_origin (i : string) (evs : list Event) (a : App) :
  i ∈ firedAlarmsRef (run evs a).1 →
  (i ∈ firedAlarmsRef a
   ∧ lastMinuteRef a = lastMinuteRef (run evs a).1
   ∧ processedInMinute (lastMinuteRef (run evs a).1) evs)
  ∨ (∃ pre r now post,
       evs = pre ++ Tick r now :: post
       ∧ processed r = true
       ∧ (∃ c, c ∈ (step (run pre a).1 (Tick r now)).2 ∧ id c = i)
       ∧ Z.of_nat (getMinutes now) = lastMinuteRef (run evs a).1
       ∧ processedInMinute (lastMinuteRef (run evs a).1) post).
Proof.
  revert a. induction evs as [|ev evs IH]; intros a.
  { intros Hi. left. by split_and!; [|  |constructor]. }
  rewrite run_cons. cbn [fst]. intros Hi.
  set (final := (run evs (step a ev).1).1) in *.
  destruct (IH _ Hi) as [(Hi1 & Hl1 & Hpim)
                        |(pre & r & now & post & -> & Hp & Hc & Hmin & Hpim)].
  - fold final in Hl1, Hpim.
    destruct (step_cases a ev) as [(Hf & Hl & _ & Hnp)|(r & now & -> & Hp)].
    + left. rewrite Hf in Hi1. split_and!; [done|congruence|].
      constructor; [|done]. destruct ev; try done.
      intros Hp. by rewrite (Hnp _ _ eq_refl) in Hp.
    + cbn [step] in *.
      destruct (onmessage_processed r now a Hp) as (Hl & Hf & _ & _ & _).
      rewrite Hf in Hi1. apply elem_of_union in Hi1 as [Hi1|Hi1].
      * left.
        destruct (decide (Z.of_nat (getMinutes now) = lastMinuteRef a)) as [E|E].
        -- rewrite (firedAtCheck_same _ _ E) in Hi1.
           split_and!; [done|congruence|].
           constructor; [|done]. intros _. congruence.
        -- rewrite (firedAtCheck_other _ _ E) in Hi1. set_solver.
      * right. exists [], r, now, evs.
        split_and!; [done|done| |congruence|done].
        by apply elem_of_hit_ids.
  - right. exists (ev :: pre), r, now, post.
    split_and!; try done. by rewrite run_cons.
Qed.

(** C3. On a processed tick the last-seen minute becomes the tick's minute;
    if the minute changed, the fired-set is emptied before the membership
    checks, so it ends up holding exactly the ids hit on this tick and every
    class ending now is hit again; if it did not change, nothing is removed.
    No other event writes the tracker.  Hence, after any run from mount,
    every id of the fired-set was inserted by a processed tick of the
    last-seen minute, with no processed tick of another minute since. *)
Theorem fired_set_cleared_on_rollover :
  (∀ r now a,
     processed r = true →
     lastMinuteRef (onmessage r now a).1 = Z.of_nat (getMinutes now)
     ∧ (Z.of_nat (getMinutes now) ≠ lastMinuteRef a →
          firedAlarmsRef (onmessage r now a).1
          = list_to_set (id <$> (onmessage r now a).2)
          ∧ ∀ c, c ∈ classes r → endsAt now c →
                 ∃ c', c' ∈ (onmessage r now a).2 ∧ id c' = id c)
     ∧ (Z.of_nat (getMinutes now) = lastMinuteRef a →
          firedAlarmsRef (onmessage r now a).1
          = firedAlarmsRef a ∪ list_to_set (id <$> (onmessage r now a).2)))
  ∧ (∀ a ev,
       (∀ r now, ev = Tick r now → processed r = false) →
       firedAlarmsRef (step a ev).1 = firedAlarmsRef a
       ∧ lastMinuteRef (step a ev).1 = lastMinuteRef a)
  ∧ (∀ now0 t0 perm evs i,
       let final := (run evs (initialApp now0 t0 perm)).1 in
       i ∈ firedAlarmsRef final →
       ∃ pre r now post,
         evs = pre ++ Tick r now :: post
         ∧ processed r = true
         ∧ (∃ c, c ∈ (step (run pre (initialApp now0 t0 perm)).1
                        (Tick r now)).2 ∧ id c = i)
         ∧ Z.of_nat (getMinutes now) = lastMinuteRef final
         ∧ processedInMinute (lastMinuteRef final) post).
Proof.
  split_and!.
  - intros r now a Hp.
    destruct (onmessage_processed r now a Hp) as (Hl & Hf & _ & _ & Hcompl).
    split_and!; [done| |].
    + intros E. rewrite (firedAtCheck_other _ _ E) in Hf.
      assert (firedAlarmsRef (onmessage r now a).1
              = list_to_set (id <$> (onmessage r now a).2)) as Hf'
        by (rewrite Hf; set_solver).
      split; [done|]. intros c Hc He.
      apply elem_of_hit_ids. rewrite <- Hf'. by apply Hcompl.
    + intros E. by rewrite (firedAtCheck_same _ _ E) in Hf.
  - intros a ev Hnp.
    destruct (step_cases a ev) as [(Hf & Hl & _)|(r & now & -> & Hp)]; [done|].
    by rewrite (Hnp _ _ eq_refl) in Hp.
  - intros now0 t0 perm evs i final Hi.
    destruct (fired_origin i evs _ Hi) as [(Hi0 & _)|H]; [|done].
    cbn in Hi0. set_solver.
Qed.

(** A run through two minutes: the id in the fired-set is the one the tick
    of the last-seen minute inserted. *)
Lemma fired_set_cleared_on_rollover_witness :
  let c1 := mkSchoolClass "1" "Math" "08:00" "08:30" ["الأحد"] true in
  let c2 := mkSchoolClass "2" "Art" "08:30" "08:31" ["الأحد"] true in
  let r := mkState (Some "u") [c1; c2] (mkDate 0 8 0) false None in
  let evs := [Tick r (mkDate 0 8 30); StopAlarm; Tick r (mkDate 0 8 31)] in
  ∃ pre r' now post,
    evs = pre ++ Tick r' now :: post
    ∧ processed r' = true
    ∧ (∃ c, c ∈ (step (run pre (initialApp (mkDate 0 8 0) 0 perm_granted)).1
                   (Tick r' now)).2 ∧ id c = "2")
    ∧ Z.of_nat (getMinutes now)
      = lastMinuteRef (run evs (initialApp (mkDate 0 8 0) 0 perm_granted)).1
    ∧ processedInMinute
        (lastMinuteRef (run evs (initialApp (mkDate 0 8 0) 0 perm_granted)).1)
        post.
Proof.
  intros c1 c2 r evs.
  apply (proj2 (proj2 fired_set_cleared_on_rollover)
           (mkDate 0 8 0) 0 perm_granted evs "2").
  vm_compute. reflexivity.
Defined.

(** ** Boundary hits *)

Lemma unHhmm_hhmm (h m : nat) :
  (h < 24)%nat → (m < 60)%nat → unHhmm (hhmm h m) = Some (h, m).
Proof.
  intros Hh Hm.
  pose proof (all_minutes
    (λ h m, match unHhmm (hhmm h m) with
            | Some (h', m') => (h' =? h)%nat && (m' =? m)%nat
            | None => false
            end)) as H.
  specialize (H ltac:(vm_compute; reflexivity) h m Hh Hm). cbn beta in H.
  destruct (unHhmm (hhmm h m)) as [[h' m']|]; [|done].
  apply andb_true_iff in H as [->%Nat.eqb_eq ->%Nat.eqb_eq]. done.
Qed.

(** On the instants of a day, the HH:mm string determines hour and
    minute. *)
Lemma timeStr_inj (d1 d2 : Date) :
  validDate d1 → validDate d2 → timeStr d1 = timeStr d2 →
  getHours d1 = getHours d2 ∧ getMinutes d1 = getMinutes d2.
Proof.
  intros (_ & Hh1 & Hm1) (_ & Hh2 & Hm2) E.
  pose proof (unHhmm_hhmm _ _ Hh1 Hm1) as E1.
  pose proof (unHhmm_hhmm _ _ Hh2 Hm2) as E2.
  unfold timeStr in E. rewrite E, E2 in E1. by simplify_eq.
Qed.

Lemma NoDup_id_inj (cls : list SchoolClass) (c c' : SchoolClass) :
  NoDup (id <$> cls) → c ∈ cls → c' ∈ cls → id c = id c' → c = c'.
Proof.
  intros Hnd Hc Hc' E.
  apply list_elem_of_lookup in Hc as [k Hk], Hc' as [k' Hk'].
  assert (k = k') as ->; [|congruence].
  apply (NoDup_lookup _ _ _ (id c) Hnd); rewrite list_lookup_fmap.
  - by rewrite Hk.
  - rewrite Hk'. cbn. by rewrite E.
Qed.

(** ** One alarm per class and day *)

Lemma step_hits_sound (a : App) (ev : Event) (c : SchoolClass) :
  c ∈ (step a ev).2 →
  ∃ r now, ev = Tick r now ∧ processed r = true
           ∧ c ∈ classes r ∧ endsAt now c ∧ id c ∉ firedAtCheck now a.
Proof.
  intros Hc.
  destruct (step_cases a ev) as [(_ & _ & Hh & _)|(r & now & -> & Hp)].
  - rewrite Hh in Hc. by apply elem_of_nil in Hc.
  - destruct (onmessage_processed r now a Hp) as (_ & _ & _ & Hs & _).
    destruct (Hs c Hc) as (? & ? & ?). by exists r, now.
Qed.

(** A hit of a run belongs to one of its ticks. *)
Lemma run_hits_origin (c : SchoolClass) (evs : list Event) (a : App) :
  c ∈ (run evs a).2 →
  ∃ pre ev post, evs = pre ++ ev :: post ∧ c ∈ (step (run pre a).1 ev).2.
Proof.
  revert a. induction evs as [|ev evs IH]; intros a.
  { intros Hc. by apply elem_of_nil in Hc. }
  rewrite run_cons. cbn [snd]. intros [Hc|Hc]%elem_of_app.
  - by exists [], ev, evs.
  - destruct (IH _ Hc) as (pre & ev' & post & -> & Hc').
    exists (ev :: pre), ev', post. split; [done|]. by rewrite run_cons.
Qed.

Lemma run_hits_here (c : SchoolClass) (pre post : list Event) (ev : Event)
    (a : App) :
  c ∈ (step (run pre a).1 ev).2 → c ∈ (run (pre ++ ev :: post) a).2.
Proof.
  intros Hc. rewrite run_app. cbn [snd]. rewrite run_cons. cbn [snd].
  apply elem_of_app. right. apply elem_of_app. by left.
Qed.

Lemma firedFor_elem_of (i : string) (hits : list SchoolClass) (c : SchoolClass) :
  c ∈ hits → id c = i → firedFor i hits ≠ [].
Proof.
  intros Hc Hid E.
  assert (c ∈ firedFor i hits) as H by (by apply list_elem_of_filter).
  rewrite E in H. by apply elem_of_nil in H.
Qed.

Lemma firedFor_nonempty (i : string) (hits : list SchoolClass) :
  firedFor i hits ≠ [] → ∃ c, c ∈ hits ∧ id c = i.
Proof. intros H%firedFor_elem. by apply elem_of_hit_ids. Qed.

(** An alarm for the class is triggered only by a tick whose HH:mm string
    is the end time. *)
Lemma quiet_off_the_end_time (i e : string) (evs : list Event) (a : App) :
  endFixed i e evs →
  Forall (λ ev, ∀ now, tickDate ev = Some now → timeStr now ≠ e) evs →
  firedFor i (run evs a).2 = [].
Proof.
  intros Hfix Hoff. apply firedFor_nil. intros c Hc Hid.
  destruct (run_hits_origin c evs a Hc) as (pre & ev & post & -> & Hc').
  destruct (step_hits_sound _ _ _ Hc') as (r & now & -> & _ & Hcls & He & _).
  apply Forall_app in Hfix as [_ [Hfix _]%Forall_cons].
  apply Forall_app in Hoff as [_ [Hoff _]%Forall_cons].
  destruct He as (_ & _ & He).
  apply (Hoff now eq_refl). rewrite He. by apply (Hfix r now eq_refl).
Qed.

Lemma timeStr_minuteOfDay (now : Date) (h0 m0 : nat) :
  validDate now → (h0 < 24)%nat → (m0 < 60)%nat →
  timeStr now = hhmm h0 m0 ↔ minuteOfDay now = (60 * h0 + m0)%nat.
Proof.
  intros Hv Hh Hm. pose proof Hv as (_ & Hh' & Hm'). split.
  - intros E. destruct (timeStr_inj now (mkDate 0 h0 m0) Hv) as [E1 E2];
      [unfold validDate; cbn; lia | done |].
    cbn in E1, E2. unfold minuteOfDay. lia.
  - unfold minuteOfDay, timeStr. intros E.
    assert (getHours now = h0 ∧ getMinutes now = m0) as [-> ->] by lia. done.
Qed.

Lemma tickMinutes_cons (ev : Event) (evs : list Event) :
  tickMinutes (ev :: evs)
  = match tickDate ev with
    | Some now => minuteOfDay now :: tickMinutes evs
    | None => tickMinutes evs
    end.
Proof. unfold tickMinutes. cbn. by destruct (tickDate ev). Qed.

Lemma dayRun_cons (wd : nat) (ev : Event) (evs : list Event) :
  dayRun wd (ev :: evs) →
  dayRun wd evs
  ∧ ∀ now, tickDate ev = Some now →
           validDate now ∧ getDay now = wd
           ∧ Forall (le (minuteOfDay now)) (tickMinutes evs).
Proof.
  intros [[Hev Hevs]%Forall_cons Hs]. rewrite tickMinutes_cons in Hs.
  destruct (tickDate ev) as [now|] eqn:E.
  - apply StronglySorted_inv in Hs as [Hs Hle].
    split; [done|]. intros ? [= <-]. destruct (Hev now eq_refl). done.
  - split; [done|]. by intros.
Qed.

Lemma tickMinutes_tail (M : nat) (ev : Event) (evs : list Event) :
  Forall (le M) (tickMinutes (ev :: evs)) → Forall (le M) (tickMinutes evs).
Proof.
  rewrite tickMinutes_cons. destruct (tickDate ev); [|done].
  by intros [_ ?]%Forall_cons.
Qed.

(** After the class has fired in its end minute, no later tick of the day
    triggers it again. *)
Lemma no_refire_that_day (i : string) (h0 m0 wd : nat) (evs : list Event)
    (a : App) :
  (h0 < 24)%nat → (m0 < 60)%nat →
  i ∈ firedAlarmsRef a → lastMinuteRef a = Z.of_nat m0 →
  dayRun wd evs →
  Forall (le (60 * h0 + m0)%nat) (tickMinutes evs) →
  endFixed i (hhmm h0 m0) evs →
  firedFor i (run evs a).2 = [].
Proof.
  intros Hh Hm. revert a.
  induction evs as [|ev evs IH]; intros a Hi Hl Hday Hle Hfix; [done|].
  destruct (dayRun_cons _ _ _ Hday) as [Hday' Hev].
  pose proof (tickMinutes_tail _ _ _ Hle) as Hle'.
  pose proof Hfix as [_ Hfix']%Forall_cons.
  destruct (step_cases a ev) as [(Hf & Hl' & Hh' & _)|(r & now & -> & Hp)].
  - rewrite run_cons. cbn [snd]. rewrite firedFor_app, Hh'.
    apply IH; [by rewrite Hf | congruence | done..].
  - destruct (Hev now eq_refl) as (Hv & _ & Hrest).
    rewrite tickMinutes_cons in Hle. cbn [tickDate] in Hle.
    apply Forall_cons in Hle as [Hnow _].
    destruct (decide (minuteOfDay now = (60 * h0 + m0)%nat)) as [E|E].
    + assert (getMinutes now = m0) as Em.
      { destruct Hv as (_ & ? & ?). unfold minuteOfDay in E. lia. }
      rewrite run_cons. cbn [snd step]. rewrite firedFor_app.
      destruct (onmessage_processed r now a Hp) as (Hl1 & Hf1 & _ & Hs & _).
      rewrite firedAtCheck_same in Hf1, Hs by congruence.
      rewrite (firedFor_nil i (onmessage r now a).2).
      * apply IH; [rewrite Hf1; set_solver | congruence | done..].
      * intros c Hc Hid. destruct (Hs c Hc) as (_ & _ & Hn). congruence.
    + apply (quiet_off_the_end_time i (hhmm h0 m0)); [done|].
      constructor.
      * intros ? [= <-]. by rewrite timeStr_minuteOfDay.
      * destruct Hday' as [Hvalid _].
        apply Forall_forall. intros ev Hin now' Hnow'.
        rewrite Forall_forall in Hvalid.
        destruct (Hvalid ev Hin now' Hnow') as [Hv' _].
        rewrite timeStr_minuteOfDay by done.
        assert (minuteOfDay now' ∈ tickMinutes evs) as Hmem.
        { unfold tickMinutes. apply list_elem_of_omap. exists ev.
          split; [done|]. by rewrite Hnow'. }
        rewrite Forall_forall in Hrest. specialize (Hrest _ Hmem). lia.
Qed.

(** At most one alarm for the class over the day. *)
Lemma at_most_once_that_day (i : string) (h0 m0 wd : nat) (evs : list Event)
    (a : App) :
  (h0 < 24)%nat → (m0 < 60)%nat →
  dayRun wd evs → endFixed i (hhmm h0 m0) evs →
  (length (firedFor i (run evs a).2) ≤ 1)%nat.
Proof.
  intros Hh Hm. revert a.
  induction evs as [|ev evs IH]; intros a Hday Hfix; [cbn; lia|].
  destruct (dayRun_cons _ _ _ Hday) as [Hday' Hev].
  pose proof Hfix as [Hfix0 Hfix']%Forall_cons.
  rewrite run_cons. cbn [snd]. rewrite firedFor_app, length_app.
  destruct (step_cases a ev) as [(Hf & Hl' & Hh' & _)|(r & now & -> & Hp)].
  - rewrite Hh'. by apply IH.
  - cbn [step].
    destruct (onmessage_processed r now a Hp) as (Hl1 & Hf1 & Hnd & Hs & _).
    pose proof (firedFor_NoDup i _ Hnd) as Hlen.
    destruct (firedFor i (onmessage r now a).2) as [|c rest] eqn:E.
    { by apply IH. }
    assert (c ∈ firedFor i (onmessage r now a).2) as Hc
      by (rewrite E; by left).
    apply list_elem_of_filter in Hc as [Hid Hc].
    destruct (Hs c Hc) as (Hcls & (_ & _ & He) & _).
    destruct (Hev now eq_refl) as (Hv & _ & Hrest).
    rewrite (Hfix0 r now eq_refl c Hcls Hid) in He.
    pose proof (proj1 (timeStr_minuteOfDay now h0 m0 Hv Hh Hm) He) as EM.
    assert (getMinutes now = m0) as Em.
    { destruct Hv as (_ & ? & ?). unfold minuteOfDay in EM. lia. }
    rewrite (no_refire_that_day i h0 m0 wd evs); try done.
    + cbn in *. lia.
    + rewrite Hf1. apply elem_of_union_r, elem_of_hit_ids. eauto.
    + cbn [step fst] in *. congruence.
    + by rewrite <- EM.
Qed.

(** A processed tick at the end minute triggers the alarm, unless the id
    was left in the fired-set under the same minute value before the day
    started. *)
Lemma due_tick_fires (i : string) (h0 m0 wd : nat) (evs : list Event)
    (a : App) :
  (h0 < 24)%nat → (m0 < 60)%nat →
  dayRun wd evs → endFixed i (hhmm h0 m0) evs →
  ¬ (i ∈ firedAlarmsRef a ∧ lastMinuteRef a = Z.of_nat m0) →
  dueTick i evs →
  firedFor i (run evs a).2 ≠ [].
Proof.
  intros Hh Hm [Hvalid _] Hfix Hfresh (r & now & c & Hin & Hp & Hcls & Hid & He).
  apply list_elem_of_split in Hin as (pre & post & ->).
  apply Forall_app in Hvalid as [_ [Hv _]%Forall_cons].
  apply Forall_app in Hfix as [_ [Hfix _]%Forall_cons].
  destruct (Hv now eq_refl) as [Hv' _].
  pose proof He as (_ & _ & Het).
  rewrite (Hfix r now eq_refl c Hcls Hid) in Het.
  apply timeStr_minuteOfDay in Het; [|done..].
  assert (getMinutes now = m0) as Em.
  { destruct Hv' as (_ & ? & ?). unfold minuteOfDay in Het. lia. }
  destruct (onmessage_processed r now (run pre a).1 Hp)
    as (_ & Hf & _ & _ & Hcompl).
  specialize (Hcompl c Hcls He). rewrite Hf, Hid in Hcompl.
  apply elem_of_union in Hcompl as [Hold|Hnew].
  - unfold firedAtCheck in Hold. case_bool_decide as El; [|set_solver].
    destruct (fired_origin i pre a Hold)
      as [(Hi0 & Hl0 & _)|(pre' & r' & now' & post' & -> & _ & Hc' & _)].
    + destruct Hfresh. split; [done|congruence].
    + destruct Hc' as (c' & Hc' & Hid').
      apply (firedFor_elem_of i _ c'); [|done].
      rewrite run_app. cbn [snd]. apply elem_of_app. left.
      by apply run_hits_here.
  - apply elem_of_hit_ids in Hnew as (c' & Hc' & Hid').
    apply (firedFor_elem_of i _ c'); [|done]. by apply run_hits_here.
Qed.

(** An alarm for the class was triggered by a processed tick at which the
    class was enabled, active on the weekday and ending. *)
Lemma fired_by_due_tick (i : string) (evs : list Event) (a : App) :
  firedFor i (run evs a).2 ≠ [] → dueTick i evs.
Proof.
  intros (c & Hc & Hid)%firedFor_nonempty.
  destruct (run_hits_origin c evs a Hc) as (pre & ev & post & -> & Hc').
  destruct (step_hits_sound _ _ _ Hc') as (r & now & -> & Hp & Hcls & He & _).
  exists r, now, c. split_and!; try done.
  apply elem_of_app. right. by left.
Qed.

Lemma StronglySorted_seq (from count : nat) :
  StronglySorted le (seq from count).
Proof.
  revert from. induction count as [|count IH]; intros from; cbn.
  - constructor.
  - constructor; [apply IH|]. apply Forall_seq. lia.
Qed.

Lemma dayRun_by_check (wd n : nat) (evs : list Event) :
  (wd < 7)%nat → ticksOfDay wd evs = true → tickMinutes evs = seq 0 n →
  dayRun wd evs.
Proof.
  intros Hwd Hall Hseq. split.
  - apply Forall_forall. intros ev Hev now Hnow.
    unfold ticksOfDay in Hall. rewrite forallb_forall in Hall.
    specialize (Hall ev (proj1 (list_elem_of_In _ _) Hev)).
    rewrite Hnow in Hall.
    apply andb_true_iff in Hall as [[Hd Hh]%andb_true_iff Hm].
    apply Nat.eqb_eq in Hd. apply Nat.ltb_lt in Hh, Hm.
    unfold validDate. lia.
  - rewrite Hseq. apply StronglySorted_seq.
Qed.

Lemma coversDay_by_check (wd : nat) (evs : list Event) :
  forallb (λ h, forallb (hasTickAt wd evs h) (seq 0 60)) (seq 0 24) = true →
  coversDay wd evs.
Proof.
  intros Hall h m Hh Hm.
  pose proof (all_minutes (hasTickAt wd evs) Hall h m Hh Hm) as Hhas.
  unfold hasTickAt in Hhas.
  apply existsb_exists in Hhas as (ev & Hev & Hnow).
  destruct ev as [r now| | | | |]; try done. cbn [tickDate] in Hnow.
  apply andb_true_iff in Hnow as [[Hd Hh']%andb_true_iff Hm'].
  apply Nat.eqb_eq in Hd, Hh', Hm'. exists r.
  apply list_elem_of_In in Hev. destruct now as [d0 h1 m1].
  cbn [getDay getHours getMinutes] in Hd, Hh', Hm'. by subst.
Qed.

(** ** Preemption *)

(** The claim of C4 fails for the manual test.  While the alarm of a class
    that ended at 08:30 rings, a click on the test button replaces the active
    event by the test event; a second click, while the test rings, stops the
    alarm. *)
Lemma no_preemption_counterexample :
  let c := mkSchoolClass "1" "Math" "08:00" "08:30" ["الأحد"] true in
  let r := mkState (Some "u") [c] (mkDate 0 8 29) false None in
  let a0 := setState (λ _, r) (initialApp (mkDate 0 8 29) 0 perm_granted) in
  let a1 := (step a0 (Tick r (mkDate 0 8 30))).1 in
  let a2 := (step a1 ToggleTestSound).1 in
  let a3 := (step a2 ToggleTestSound).1 in
  activeAlarm (state a1) = Some (mkAlarmState true "Math" type_end)
  ∧ activeAlarm (state a2) = Some (mkAlarmState true "تجربة الجرس" type_start)
  ∧ activeAlarm (state a2) ≠ activeAlarm (state a1)
  ∧ activeAlarm (state a3) = None.
Proof. vm_compute. split_and!; [reflexivity..|discriminate|reflexivity]. Qed.

(** ** The auto-stop timeout *)


Lemma filter_other_handle (h : nat) (d : Z) :
  filter (λ t : nat * Z, t.1 ≠ h) [(h, d)] = [].
Proof. rewrite filter_cons. cbn. by rewrite decide_False by auto. Qed.

(** The timer cells after [triggerAlarm] and [stopAlarm], case by case on
    the audio element and the handle held. *)
Lemma triggerAlarm_timer_cells n k a :
  timers (triggerAlarm n k a)
  = (if truthyHandle (autoStopTimerRef a)
     then filter (λ t, t.1 ≠ default 0%nat (autoStopTimerRef a)) (timers a)
     else timers a) ++ [(nextTimer a, clock a + 20000)]
  ∧ autoStopTimerRef (triggerAlarm n k a) = Some (nextTimer a)
  ∧ nextTimer (triggerAlarm n k a) = S (nextTimer a)
  ∧ clock (triggerAlarm n k a) = clock a.
Proof.
  destruct a as [s f l [[|h]|] [au|] cl ts nx pm ns]; by split_and!.
Qed.

Lemma stopAlarm_timer_cells a :
  timers (stopAlarm a)
  = (if truthyHandle (autoStopTimerRef a)
     then filter (λ t, t.1 ≠ default 0%nat (autoStopTimerRef a)) (timers a)
     else timers a)
  ∧ autoStopTimerRef (stopAlarm a)
    = (if truthyHandle (autoStopTimerRef a) then None else autoStopTimerRef a)
  ∧ nextTimer (stopAlarm a) = nextTimer a.
Proof.
  destruct a as [s f l [[|h]|] [au|] cl ts nx pm ns]; by split_and!.
Qed.

Lemma timerInv_cleared a :
  timerInv a →
  (if truthyHandle (autoStopTimerRef a)
   then filter (λ t, t.1 ≠ default 0%nat (autoStopTimerRef a)) (timers a)
   else timers a) = []
  ∧ (if truthyHandle (autoStopTimerRef a) then None else autoStopTimerRef a)
    = None.
Proof.
  intros (_ & Hpos & Ht). destruct (autoStopTimerRef a) as [h|] eqn:Hr.
  - specialize (Hpos h eq_refl). cbn [truthyHandle default].
    apply Nat.eqb_neq in Hpos. rewrite Hpos. cbn [negb]. split; [|done].
    destruct Ht as [->|(h' & d & [= <-] & ->)]; [done|].
    apply filter_other_handle.
  - cbn [truthyHandle]. by destruct Ht as [->|(h' & d & [=] & _)].
Qed.

Lemma triggerAlarm_timers n k a :
  timerInv a →
  timers (triggerAlarm n k a) = [(nextTimer a, clock a + 20000)]
  ∧ autoStopTimerRef (triggerAlarm n k a) = Some (nextTimer a)
  ∧ nextTimer (triggerAlarm n k a) = S (nextTimer a)
  ∧ clock (triggerAlarm n k a) = clock a.
Proof.
  intros [Hc _]%timerInv_cleared.
  destruct (triggerAlarm_timer_cells n k a) as (-> & -> & -> & ->).
  by rewrite Hc.
Qed.

Lemma stopAlarm_timers a :
  timerInv a →
  timers (stopAlarm a) = [] ∧ autoStopTimerRef (stopAlarm a) = None
  ∧ nextTimer (stopAlarm a) = nextTimer a.
Proof.
  intros [Hc Hr]%timerInv_cleared.
  destruct (stopAlarm_timer_cells a) as (-> & -> & ->).
  by rewrite Hc, Hr.
Qed.

Lemma triggerAlarm_timerInv n k a : timerInv a → timerInv (triggerAlarm n k a).
Proof.
  intros H. pose proof H as [Hn _].
  destruct (triggerAlarm_timers n k a H) as (Ht & Hr & Hnx & _).
  split_and!; [lia| |].
  - rewrite Hr. intros ? [= <-]. lia.
  - right. by exists (nextTimer a), (clock a + 20000).
Qed.











(** Time passing with one timeout outstanding. *)
Lemma elapse_single t a h d :
  timers a = [(h, d)] →
  elapse t a
  = if bool_decide (d ≤ t `max` clock a)
    then stopAlarm (setTimers [] (setClock (t `max` clock a) a))
    else setClock (t `max` clock a) a.
Proof.
  intros Ht. unfold elapse.
  change (timers (setClock (t `max` clock a) a)) with (timers a).
  rewrite Ht. cbn [fireDue].
  change (timers (setClock (t `max` clock a) a)) with (timers a).
  change (clock (setClock (t `max` clock a) a)) with (t `max` clock a).
  rewrite Ht, filter_other_handle.
  rewrite (bool_decide_eq_true_2 ((h, d) ∈ [(h, d)])) by apply list_elem_of_here.
  by rewrite andb_true_r.
Qed.



(** ** Loading the saved list *)

(** The claim of C9 fails.  The saved text holds three records, the second
    without its times and with a number as id: all three are put into the
    class list, the malformed one included.  And when the text does not
    parse at all, no record is loaded: the list stays what it was. *)
Lemma malformed_record_counterexample :
  let good1 := JObject [("id", JString "1"); ("name", JString "Math");
                        ("startTime", JString "08:00");
                        ("endTime", JString "08:30");
                        ("days", JArray [JString "الأحد"]);
                        ("active", JBool true)] in
  let bad := JObject [("id", JNumber 2); ("name", JString "Art")] in
  let good2 := JObject [("id", JString "3"); ("name", JString "Music");
                        ("startTime", JString "09:00");
                        ("endTime", JString "09:30");
                        ("days", JArray [JString "الاثنين"]);
                        ("active", JBool false)] in
  let text := "[...]" in  (* the JSON text of the array below *)
  wellFormedRecord good1 = true
  ∧ wellFormedRecord bad = false
  ∧ wellFormedRecord good2 = true
  ∧ loadClasses (Some "u") (Some text) (Returns (JArray [good1; bad; good2]))
      (JArray [])
    = JArray [good1; bad; good2]
  ∧ loadClasses (Some "u") (Some text) (Returns (JArray [good1; bad; good2]))
      (JArray [])
    ≠ JArray [good1; good2]
  ∧ loadClasses (Some "u") (Some "[{") Throws (JArray [good2])
    = JArray [good2].
Proof. split_and!; try reflexivity. discriminate. Qed.

(** C9, amended. Loading makes no check on the records.  For a logged-in
    user with a saved text: if the text parses, the class list becomes the
    parsed value as it is, so every record of a parsed array is in the list,
    well-formed or not; if parsing throws, the class list is left as it was.
    Without a saved text the list becomes empty. *)
Theorem load_is_all_or_nothing
    (user text : string) (parsed : Outcome) (classes : JSON) :
  user ≠ EmptyString → text ≠ EmptyString →
  (∀ v, parsed = Returns v →
        loadClasses (Some user) (Some text) parsed classes = v)
  ∧ (∀ items x, parsed = Returns (JArray items) → x ∈ items →
        ∃ loaded,
          loadClasses (Some user) (Some text) parsed classes = JArray loaded
          ∧ x ∈ loaded)
  ∧ (parsed = Throws →
     loadClasses (Some user) (Some text) parsed classes = classes)
  ∧ loadClasses (Some user) None parsed classes = JArray [].
Proof.
  intros Hu Ht.
  assert (JS.truthy (Some user) = true) as Eu.
  { cbn. by destruct (String.eqb_spec user EmptyString). }
  assert (JS.truthy (Some text) = true) as Et.
  { cbn. by destruct (String.eqb_spec text EmptyString). }
  unfold loadClasses. rewrite Eu, Et. cbn [negb].
  split_and!.
  - by intros v ->.
  - intros items x -> Hx. by exists items.
  - by intros ->.
  - done.
Qed.

(** A saved list whose second record is malformed. *)
Lemma load_is_all_or_nothing_witness :
  let good := JObject [("id", JString "1"); ("name", JString "Math");
                       ("startTime", JString "08:00");
                       ("endTime", JString "08:30");
                       ("days", JArray [JString "الأحد"]);
                       ("active", JBool true)] in
  let bad := JObject [("id", JNumber 2)] in
  loadClasses (Some "u") (Some "[...]") (Returns (JArray [good; bad]))
    (JArray [])
  = JArray [good; bad].
Proof.
  intros good bad.
  apply (proj1 (load_is_all_or_nothing "u" "[...]"
                  (Returns (JArray [good; bad])) (JArray [])
                  ltac:(discriminate) ltac:(discriminate))).
  reflexivity.
Defined.

(** * Further properties of the code *)

(** ** Time strings and clock order *)

Lemma lexLt_irrefl (s : string) : ¬ lexLt s s.
Proof.
  induction s as [|ch s IH]; inversion 1; subst; [lia | by apply IH].
Qed.

Lemma lexLt_trans (a b c : string) : lexLt a b → lexLt b c → lexLt a c.
Proof.
  intros Hab. revert c. induction Hab as [ch s|c1 s1 c2 s2 Hlt|ch s1 s2 H IH];
    intros c Hbc; inversion Hbc; subst.
  - constructor.
  - constructor.
  - apply lexLt_head. lia.
  - by apply lexLt_head.
  - by apply lexLt_head.
  - apply lexLt_tail. by apply IH.
Qed.

(** The HH:mm string of minute [k] of the day. *)
Lemma hhmm_of_minute (h m : nat) :
  (m < 60)%nat → hhmm ((60 * h + m) / 60) ((60 * h + m) mod 60) = hhmm h m.
Proof.
  intros Hm.
  rewrite <- (Nat.div_unique (60 * h + m) 60 h m) by lia.
  by rewrite <- (Nat.mod_unique (60 * h + m) 60 h m) by lia.
Qed.

Lemma hhmm_next (k : nat) :
  (S k < 1440)%nat →
  lexLt (hhmm (k / 60) (k mod 60)) (hhmm (S k / 60) (S k mod 60)).
Proof.
  intros Hk. apply lt_lexLt.
  assert (forallb (λ k, JS.lt (hhmm (k / 60) (k mod 60))
                          (hhmm (S k / 60) (S k mod 60))) (seq 0 1439) = true)
    as H by (vm_compute; reflexivity).
  rewrite forallb_forall in H. apply H, in_seq. lia.
Qed.

Lemma hhmm_increasing (k d : nat) :
  (k + S d < 1440)%nat →
  lexLt (hhmm (k / 60) (k mod 60))
    (hhmm ((k + S d) / 60) ((k + S d) mod 60)).
Proof.
  induction d as [|d IH]; intros Hk.
  - replace (k + 1)%nat with (S k) by lia. apply hhmm_next. lia.
  - eapply lexLt_trans; [apply IH; lia|].
    replace (k + S (S d))%nat with (S (k + S d)) by lia.
    apply hhmm_next. lia.
Qed.

Lemma hhmm_order (h m h' m' : nat) :
  (h < 24)%nat → (m < 60)%nat → (h' < 24)%nat → (m' < 60)%nat →
  JS.lt (hhmm h m) (hhmm h' m') = (60 * h + m <? 60 * h' + m')%nat.
Proof.
  intros Hh Hm Hh' Hm'.
  rewrite <- (hhmm_of_minute h m Hm), <- (hhmm_of_minute h' m' Hm').
  set (k := (60 * h + m)%nat). set (k' := (60 * h' + m')%nat).
  assert (k < 1440 ∧ k' < 1440)%nat as [Hk Hk'] by (unfold k, k'; lia).
  clearbody k k'.
  destruct (Nat.ltb_spec k k') as [Hlt|Hge].
  - apply lt_lexLt. replace k' with (k + S (k' - k - 1))%nat by lia.
    apply hhmm_increasing. lia.
  - apply not_true_is_false. intros Hl%lt_lexLt.
    destruct (decide (k = k')) as [->|Hne].
    + by apply lexLt_irrefl in Hl.
    + apply (lexLt_irrefl (hhmm (k / 60) (k mod 60))).
      eapply lexLt_trans; [exact Hl|].
      replace k with (k' + S (k - k' - 1))%nat at 1 2 by lia.
      apply hhmm_increasing. lia.
Qed.

(** X1. On the instants of a day the zero-padded HH:mm strings order as the
    clock does: the string of one instant is below, at or above the string
    of another exactly when its minute of the day is. *)
Theorem timeStr_orders_as_clock (d1 d2 : Date) :
  validDate d1 → validDate d2 →
  (JS.lt (timeStr d1) (timeStr d2) = true
   ↔ (minuteOfDay d1 < minuteOfDay d2)%nat)
  ∧ (JS.ge (timeStr d1) (timeStr d2) = true
     ↔ (minuteOfDay d2 ≤ minuteOfDay d1)%nat)
  ∧ (JS.eq (timeStr d1) (timeStr d2) = true
     ↔ minuteOfDay d1 = minuteOfDay d2).
Proof.
  intros (_ & Hh1 & Hm1) (_ & Hh2 & Hm2).
  unfold timeStr, minuteOfDay, JS.ge, JS.eq.
  rewrite (hhmm_order _ _ _ _ Hh1 Hm1 Hh2 Hm2).
  split_and!.
  - apply Nat.ltb_lt.
  - rewrite negb_true_iff, Nat.ltb_ge. done.
  - rewrite String.eqb_eq. split.
    + intros E.
      pose proof (hhmm_order _ _ _ _ Hh1 Hm1 Hh2 Hm2) as H12.
      pose proof (hhmm_order _ _ _ _ Hh2 Hm2 Hh1 Hm1) as H21.
      rewrite E in H12, H21.
      assert (JS.lt (hhmm (getHours d2) (getMinutes d2))
                (hhmm (getHours d2) (getMinutes d2)) = false) as Hirr.
      { apply not_true_is_false. intros H%lt_lexLt.
        by apply lexLt_irrefl in H. }
      rewrite Hirr in H12, H21.
      symmetry in H12, H21. apply Nat.ltb_ge in H12, H21. lia.
    + intros E.
      assert (getHours d1 = getHours d2 ∧ getMinutes d1 = getMinutes d2)
        as [-> ->] by lia. done.
Qed.

(** 08:29 and 08:30 on a Sunday. *)
Lemma timeStr_orders_as_clock_witness :
  JS.lt (timeStr (mkDate 0 8 29)) (timeStr (mkDate 0 8 30)) = true
  ↔ (minuteOfDay (mkDate 0 8 29) < minuteOfDay (mkDate 0 8 30))%nat.
Proof.
  apply (timeStr_orders_as_clock (mkDate 0 8 29) (mkDate 0 8 30));
    unfold validDate; cbn; lia.
Defined.

(** X2. For a class whose start and end times are HH:mm strings of the
    day, the callback of [currentOngoingClass] holds exactly when the class
    is enabled, active on the weekday, and the clock is at or after the start
    minute and before the end minute.  So a class whose end is not after its
    start (a class over midnight, say) is never the ongoing class. *)
Theorem ongoing_window_in_minutes
    (r : State) (c : SchoolClass) (hs ms he me : nat) :
  validDate (currentTime r) →
  (hs < 24)%nat → (ms < 60)%nat → (he < 24)%nat → (me < 60)%nat →
  startTime c = hhmm hs ms → endTime c = hhmm he me →
  (isOngoing (dayName (currentTime r)) (timeStr (currentTime r)) c = true
   ↔ active c = true
     ∧ JS.includes (days c) (dayName (currentTime r)) = true
     ∧ (60 * hs + ms ≤ minuteOfDay (currentTime r) < 60 * he + me)%nat)
  ∧ (currentOngoingClass r = Some c →
     (60 * hs + ms ≤ minuteOfDay (currentTime r) < 60 * he + me)%nat)
  ∧ ((60 * he + me ≤ 60 * hs + ms)%nat → currentOngoingClass r ≠ Some c).
Proof.
  intros (_ & Hh & Hm) Hhs Hms Hhe Hme Es Ee.
  assert (isOngoing (dayName (currentTime r)) (timeStr (currentTime r)) c = true
   ↔ active c = true
     ∧ JS.includes (days c) (dayName (currentTime r)) = true
     ∧ (60 * hs + ms ≤ minuteOfDay (currentTime r) < 60 * he + me)%nat) as Hiff.
  { unfold isOngoing, JS.ge, timeStr, minuteOfDay. rewrite Es, Ee.
    rewrite (hhmm_order _ _ _ _ Hh Hm Hhs Hms),
      (hhmm_order _ _ _ _ Hh Hm Hhe Hme).
    destruct (active c), (JS.includes (days c) _); cbn [negb orb];
      try (split; [done|by intros (?&?&?)]).
    rewrite andb_true_iff, negb_true_iff, Nat.ltb_ge, Nat.ltb_lt.
    split; [intros [??]; split_and!; [done..|lia] | intros (_&_&?); lia]. }
  assert (currentOngoingClass r = Some c →
     (60 * hs + ms ≤ minuteOfDay (currentTime r) < 60 * he + me)%nat) as Hsome.
  { intros Hc. apply find_some in Hc as [_ Hc]. by apply Hiff in Hc as (_&_&?). }
  split_and!; [done..|].
  intros Hle Hc. apply Hsome in Hc. lia.
Qed.

(** A class from 22:00 to 06:00 is not the ongoing class at 23:00. *)
Lemma ongoing_window_in_minutes_witness :
  let c := mkSchoolClass "1" "Night" "22:00" "06:00" ["الأحد"] true in
  currentOngoingClass (mkState (Some "u") [c] (mkDate 0 23 0) false None)
  ≠ Some c.
Proof.
  intros c.
  apply (ongoing_window_in_minutes _ c 22 0 6 0);
    try reflexivity; unfold validDate; cbn; lia.
Defined.

(** X3. At the tick that triggers the alarm of a class, that class is not
    the ongoing class any more: the end of the window is exclusive. *)
Theorem hit_class_is_not_ongoing
    (r s : State) (now : Date) (a : App) (c : SchoolClass) :
  c ∈ (onmessage r now a).2 → currentTime s = now →
  currentOngoingClass s ≠ Some c.
Proof.
  intros Hc Ht Hon.
  destruct (step_hits_sound a (Tick r now) c Hc)
    as (r' & now' & [= <- <-] & _ & _ & (_ & _ & He) & _).
  apply find_some in Hon as [_ Hon]. unfold isOngoing in Hon.
  destruct (negb (active c) || negb _); [done|].
  apply andb_true_iff in Hon as [_ Hlt]. rewrite Ht, He in Hlt.
  apply lt_lexLt in Hlt. by apply lexLt_irrefl in Hlt.
Qed.

(** The class that ends at 08:30, at the tick of 08:30. *)
Lemma hit_class_is_not_ongoing_witness :
  let c := mkSchoolClass "1" "Math" "08:00" "08:30" ["الأحد"] true in
  let r := mkState (Some "u") [c] (mkDate 0 8 29) false None in
  let a := initialApp (mkDate 0 8 29) 0 perm_granted in
  currentOngoingClass (state (onmessage r (mkDate 0 8 30) a).1) ≠ Some c.
Proof.
  intros c r a.
  apply (hit_class_is_not_ongoing r _ (mkDate 0 8 30) a c).
  - vm_compute. apply list_elem_of_here.
  - reflexivity.
Defined.

(** ** The alarm and its timeout along a run *)

Lemma coherent_timerInv a : coherent a → timerInv a.
Proof.
  intros [Hn [(_ & _ & Hr & Ht)|(_ & h & d & Hr & Hh & Ht & _)]];
    (split_and!; [done| |]).
  - by rewrite Hr.
  - by left.
  - rewrite Hr. by intros ? [= <-].
  - right. by exists h, d.
Qed.

Lemma stopAlarm_isTestingSound a : isTestingSound (state (stopAlarm a)) = false.
Proof. by_cells a. Qed.

Lemma triggerAlarm_coherent n k a : timerInv a → coherent (triggerAlarm n k a).
Proof.
  intros H. pose proof H as [Hn _].
  destruct (triggerAlarm_timers n k a H) as (Ht & Hr & Hnx & Hcl).
  split; [lia|]. right. split.
  - rewrite triggerAlarm_activeAlarm. by eexists.
  - exists (nextTimer a), (clock a + 20000). rewrite Hcl.
    split_and!; [done|lia|done|lia|lia].
Qed.

Lemma stopAlarm_coherent a : timerInv a → coherent (stopAlarm a).
Proof.
  intros H. pose proof H as [Hn _].
  destruct (stopAlarm_timers a H) as (Ht & Hr & Hnx).
  split; [lia|]. left.
  by rewrite stopAlarm_activeAlarm, stopAlarm_isTestingSound.
Qed.

(** The callback of [forEach] either leaves everything as it is or runs its
    branch. *)
Lemma checkClass_cases dn ts a hits c :
  checkClass dn ts (a, hits) c = (a, hits)
  ∨ ∃ a1 a2,
      a1 = triggerAlarm (name c) type_end
             (setFiredAlarms (firedAlarmsRef a ∪ {[ id c ]}) a)
      ∧ a2 = match permission a1 with
             | perm_granted => showNotification (notificationTitle c) a1
             | _ => a1
             end
      ∧ checkClass dn ts (a, hits) c = (a2, hits ++ [c]).
Proof.
  unfold checkClass.
  destruct (negb (active c) || negb (JS.includes (days c) dn)); [by left|].
  destruct (JS.eq ts (endTime c)
            && negb (bool_decide (id c ∈ firedAlarmsRef a))); [|by left].
  right. by eexists _, _.
Qed.

Lemma triggerAlarm_permission n k a :
  permission (triggerAlarm n k a) = permission a
  ∧ notifications (triggerAlarm n k a) = notifications a.
Proof. split; by_cells a. Qed.

Lemma stopAlarm_permission a :
  permission (stopAlarm a) = permission a
  ∧ notifications (stopAlarm a) = notifications a.
Proof. split; by_cells a. Qed.

(** What the branch of [checkClass] leaves behind. *)
Lemma checkClass_hit dn ts a hits c a2 :
  checkClass dn ts (a, hits) c = (a2, hits ++ [c]) → timerInv a →
  coherent a2
  ∧ activeAlarm (state a2) = Some (mkAlarmState true (name c) type_end)
  ∧ permission a2 = permission a
  ∧ notifications a2
    = notifications a
      ++ match permission a with
         | perm_granted => [notificationTitle c]
         | _ => []
         end.
Proof.
  intros E Hinv.
  destruct (checkClass_cases dn ts a hits c) as [E'|(a1 & a2' & E1 & E2 & E')].
  { rewrite E' in E. injection E as _ E.
    apply (f_equal length) in E. rewrite length_app in E. cbn in E. lia. }
  rewrite E' in E. injection E as ->.
  set (a0 := setFiredAlarms (firedAlarmsRef a ∪ {[ id c ]}) a) in E1.
  assert (timerInv a0) as H0 by exact Hinv.
  pose proof (triggerAlarm_coherent (name c) type_end a0 H0) as Hco.
  pose proof (triggerAlarm_activeAlarm (name c) type_end a0) as Hal.
  destruct (triggerAlarm_permission (name c) type_end a0) as [Hp Hn].
  change (permission a0) with (permission a) in Hp.
  change (notifications a0) with (notifications a) in Hn.
  rewrite <- E1 in Hco, Hal, Hp, Hn. clearbody a0. clear E1.
  rewrite Hp in E2. subst a2.
  destruct (permission a) eqn:Ep; rewrite ?app_nil_r; split_and!;
    try done; try exact Hco.
  cbn [showNotification notifications]. by rewrite Hn.
Qed.

Lemma forEach_cells dn ts cls a hits :
  coherent a →
  let res := fold_left (checkClass dn ts) cls (a, hits) in
  coherent res.1
  ∧ permission res.1 = permission a
  ∧ ∃ new,
      res.2 = hits ++ new
      ∧ new `sublist_of` cls
      ∧ activeAlarm (state res.1)
        = match last new with
          | Some c => Some (mkAlarmState true (name c) type_end)
          | None => activeAlarm (state a)
          end
      ∧ notifications res.1
        = notifications a
          ++ match permission a with
             | perm_granted => notificationTitle <$> new
             | _ => []
             end.
Proof.
  revert a hits. induction cls as [|c cls IH]; intros a hits Hco res.
  - subst res. cbn [fold_left fst snd]. split_and!; [done..|].
    exists []. rewrite !app_nil_r. split_and!; try done.
    by destruct (permission a); rewrite ?app_nil_r.
  - subst res. cbn [fold_left].
    destruct (checkClass_cases dn ts a hits c) as [E|(a1 & a2 & _ & _ & E)].
    + rewrite E. destruct (IH a hits Hco) as (H1 & H2 & new & H3 & H4 & H5 & H6).
      split_and!; [done..|]. exists new. split_and!; try done.
      by apply sublist_cons.
    + rewrite E.
      destruct (checkClass_hit dn ts a hits c a2 E (coherent_timerInv a Hco))
        as (Hco2 & Hal2 & Hp2 & Hn2).
      destruct (IH a2 (hits ++ [c]) Hco2)
        as (H1 & H2 & new & H3 & H4 & H5 & H6).
      split_and!; [done|congruence|]. exists (c :: new).
      split_and!.
      * by rewrite H3, <- app_assoc.
      * by apply sublist_skip.
      * rewrite H5, Hal2. destruct new as [|c' l]; [done|].
        rewrite last_cons_cons. destruct (last (c' :: l)) eqn:El; [done|].
        by apply last_None in El.
      * rewrite H6, Hn2, Hp2.
        destruct (permission a); rewrite ?app_nil_r; [done| |done].
        by rewrite fmap_cons, <- app_assoc.
Qed.

Lemma onmessage_cells r now a :
  coherent a →
  let res := onmessage r now a in
  coherent res.1
  ∧ permission res.1 = permission a
  ∧ res.2 `sublist_of` classes r
  ∧ activeAlarm (state res.1)
    = match last res.2 with
      | Some c => Some (mkAlarmState true (name c) type_end)
      | None => activeAlarm (state a)
      end
  ∧ notifications res.1
    = notifications a
      ++ match permission a with
         | perm_granted => notificationTitle <$> res.2
         | _ => []
         end.
Proof.
  intros Hco res. subst res. unfold onmessage, checkAlarms.
  case_match.
  - cbn [fst snd last]. split_and!; try done.
    + apply sublist_nil_l.
    + by destruct (permission a); rewrite ?app_nil_r.
  - set (a0 := rollover _ _).
    assert (coherent a0) as H0.
    { unfold a0, rollover. destruct (bool_decide (_ ≠ _)); exact Hco. }
    assert (permission a0 = permission a ∧ notifications a0 = notifications a
            ∧ activeAlarm (state a0) = activeAlarm (state a)) as (Hp & Hn & Hal).
    { unfold a0, rollover. by destruct (bool_decide (_ ≠ _)). }
    destruct (forEach_cells (dayName now) (timeStr now) (classes r) a0 [] H0)
      as (H1 & H2 & new & H3 & H4 & H5 & H6).
    cbn [app] in H3. rewrite H3. clearbody a0.
    split_and!; [done| |done| |].
    + by rewrite H2.
    + by rewrite H5, Hal.
    + by rewrite H6, Hn, Hp.
Qed.

Lemma elapse_coherent t a : coherent a → coherent (elapse t a).
Proof.
  intros [Hn [(Hal & Hts & Hr & Ht)|(Hal & h & d & Hr & Hh & Ht & Hd)]].
  - unfold elapse.
    change (timers (setClock (t `max` clock a) a)) with (timers a).
    rewrite Ht. cbn [fireDue]. split; [done|]. by left.
  - rewrite (elapse_single t a h d Ht). case_bool_decide as E.
    + apply stopAlarm_coherent. split_and!; [done| |by left].
      cbn. rewrite Hr. by intros ? [= <-].
    + split; [done|]. right. split; [done|]. exists h, d.
      split_and!; [done..|cbn; lia|cbn; lia].
Qed.

Lemma step_coherent a ev : coherent a → coherent (step a ev).1.
Proof.
  intros H. pose proof (coherent_timerInv a H) as Hinv.
  destruct ev as [r now| | |u saved| |t]; cbn [step fst].
  - by apply onmessage_cells.
  - unfold toggleTestSound. case_match.
    + by apply stopAlarm_coherent.
    + apply triggerAlarm_coherent. exact Hinv.
  - by apply stopAlarm_coherent.
  - unfold handleLogin. destruct (JS.truthy (Some u)); exact H.
  - unfold handleLogout.
    assert (coherent (stopAlarm (setCurrentUser None a))) as H'
      by (apply stopAlarm_coherent; exact Hinv).
    exact H'.
  - by apply elapse_coherent.
Qed.

Lemma run_coherent evs a : coherent a → coherent (run evs a).1.
Proof.
  revert a. induction evs as [|ev evs IH]; intros a H; [done|].
  rewrite run_cons. cbn [fst]. by apply IH, step_coherent.
Qed.

Lemma initialApp_coherent now t0 perm : coherent (initialApp now t0 perm).
Proof. split; [cbn; lia|by left]. Qed.

(** X4. In every state the component reaches from mount, whatever the
    events: an alarm is active exactly when a timeout is outstanding; an
    outstanding timeout is the one [autoStopTimerRef] holds and is due within
    20000 ms; the test flag is on only while an alarm is active; with no
    further event the alarm is off 20000 ms later at the latest; and when no
    alarm is active [stopAlarm] changes neither the state nor the timeouts. *)
Theorem alarm_and_timeout_in_step
    (now0 : Date) (t0 : Z) (perm : Permission) (evs : list Event) :
  let a := (run evs (initialApp now0 t0 perm)).1 in
  (activeAlarm (state a) = None ↔ timers a = [])
  ∧ (∀ h d, (h, d) ∈ timers a →
       timers a = [(h, d)] ∧ autoStopTimerRef a = Some h
       ∧ clock a < d ≤ clock a + 20000)
  ∧ (isTestingSound (state a) = true → is_Some (activeAlarm (state a)))
  ∧ (∀ t, clock a + 20000 ≤ t → activeAlarm (state (elapse t a)) = None)
  ∧ (activeAlarm (state a) = None →
       state (stopAlarm a) = state a ∧ timers (stopAlarm a) = timers a
       ∧ autoStopTimerRef (stopAlarm a) = autoStopTimerRef a
       ∧ firedAlarmsRef (stopAlarm a) = firedAlarmsRef a).
Proof.
  intros a.
  assert (coherent a) as Hco by apply run_coherent, initialApp_coherent.
  clearbody a.
  destruct Hco as [Hn [(Hal & Hts & Hr & Ht)|(Hal & h & d & Hr & Hh & Ht & Hd)]].
  - split_and!.
    + done.
    + intros h d Hin. rewrite Ht in Hin. by apply elem_of_nil in Hin.
    + by rewrite Hts.
    + intros t _. unfold elapse.
      change (timers (setClock (t `max` clock a) a)) with (timers a).
      by rewrite Ht.
    + intros _.
      destruct a as [[u cls ct ts al] f l ref [au|] cl tms nx pm ns];
        cbn in *; by subst.
  - split_and!.
    + split; [intros E; rewrite E in Hal; by destruct Hal | by rewrite Ht].
    + intros h' d'. rewrite Ht. intros [= -> ->]%list_elem_of_singleton. done.
    + done.
    + intros t Ht'. rewrite (elapse_single t a h d Ht).
      rewrite bool_decide_eq_true_2 by lia. apply stopAlarm_activeAlarm.
    + intros E. rewrite E in Hal. by destruct Hal.
Qed.

(** The alarm of a class that ended at 08:30, 20000 ms after the tick that
    triggered it. *)
Lemma alarm_and_timeout_in_step_witness :
  let c := mkSchoolClass "1" "Math" "08:00" "08:30" ["الأحد"] true in
  let r := mkState (Some "u") [c] (mkDate 0 8 29) false None in
  let a := (run [Tick r (mkDate 0 8 30)]
              (initialApp (mkDate 0 8 29) 1000 perm_granted)).1 in
  is_Some (activeAlarm (state a))
  ∧ activeAlarm (state (elapse 21000 a)) = None.
Proof.
  intros c r a. split; [by eexists|].
  destruct (alarm_and_timeout_in_step (mkDate 0 8 29) 1000 perm_granted
              [Tick r (mkDate 0 8 30)]) as (_ & _ & _ & Hstop & _).
  apply Hstop. vm_compute. discriminate.
Defined.

Lemma triggerAlarm_state n k a :
  state (triggerAlarm n k a)
  = mkState (currentUser (state a)) (classes (state a)) (currentTime (state a))
      (isTestingSound (state a)) (Some (mkAlarmState true n k)).
Proof. by_cells a. Qed.

Lemma stopAlarm_state a :
  state (stopAlarm a)
  = mkState (currentUser (state a)) (classes (state a)) (currentTime (state a))
      false None.
Proof. by_cells a. Qed.

(** X16. The test button, in any state the component reaches.  With the
    test flag off, a click puts the test event on display, sets the flag and
    leaves exactly one timeout, due 20000 ms later, also when a class alarm
    was ringing (its event is replaced); a second click stops the alarm,
    clears the flag and the timeout, and when no alarm was active before the
    two clicks the state is what it was.  The clicks touch neither the
    fired-set nor the notifications.  With the test flag on, a click stops
    the alarm. *)
Theorem test_click_round_trip
    (now0 : Date) (t0 : Z) (perm : Permission) (evs : list Event) :
  let a := (run evs (initialApp now0 t0 perm)).1 in
  let a1 := (step a ToggleTestSound).1 in
  let a2 := (step a1 ToggleTestSound).1 in
  (isTestingSound (state a) = false →
     activeAlarm (state a1) = Some (mkAlarmState true "تجربة الجرس" type_start)
     ∧ isTestingSound (state a1) = true
     ∧ timers a1 = [(nextTimer a, clock a + 20000)]
     ∧ activeAlarm (state a2) = None
     ∧ isTestingSound (state a2) = false
     ∧ timers a2 = []
     ∧ (activeAlarm (state a) = None → state a2 = state a)
     ∧ firedAlarmsRef a2 = firedAlarmsRef a
     ∧ notifications a2 = notifications a)
  ∧ (isTestingSound (state a) = true →
     activeAlarm (state a1) = None ∧ isTestingSound (state a1) = false
     ∧ timers a1 = []).
Proof.
  intros a a1 a2.
  assert (coherent a) as Hco by apply run_coherent, initialApp_coherent.
  pose proof (coherent_timerInv a Hco) as Hinv.
  clearbody a.
  split.
  - intros Hoff.
    assert (a1 = triggerAlarm "تجربة الجرس" type_start
                   (setIsTestingSound true a)) as E1
      by (subst a1; cbn [step fst]; unfold toggleTestSound; by rewrite Hoff).
    assert (timerInv (setIsTestingSound true a)) as Hinv0 by exact Hinv.
    assert (timerInv a1) as Hinv1
      by (rewrite E1; by apply triggerAlarm_timerInv).
    destruct (triggerAlarm_timers "تجربة الجرس" type_start
                (setIsTestingSound true a) Hinv0) as (Ht1 & _).
    assert (state a1
            = mkState (currentUser (state a)) (classes (state a))
                (currentTime (state a)) true
                (Some (mkAlarmState true "تجربة الجرس" type_start))) as Hs1
      by (rewrite E1; apply triggerAlarm_state).
    assert (a2 = stopAlarm a1) as E2
      by (subst a2; cbn [step fst]; unfold toggleTestSound; by rewrite Hs1).
    rewrite <- E1 in Ht1. clearbody a1 a2.
    destruct (stopAlarm_timers a1 Hinv1) as (Ht2 & _).
    rewrite E2, stopAlarm_state, Hs1. cbn [isTestingSound activeAlarm].
    split_and!; try done.
    + intros Hidle. destruct (state a) as [u cls ct ts al]. cbn in *.
      by subst.
    + rewrite stopAlarm_fired, E1. by rewrite triggerAlarm_fired.
    + destruct (stopAlarm_permission a1) as [_ ->]. rewrite E1.
      by destruct (triggerAlarm_permission "تجربة الجرس" type_start
                     (setIsTestingSound true a)) as [_ ->].
  - intros Hon.
    assert (a1 = stopAlarm a) as ->
      by (subst a1; cbn [step fst]; unfold toggleTestSound; by rewrite Hon).
    destruct (stopAlarm_timers a Hinv) as (Ht & _).
    by rewrite stopAlarm_activeAlarm, stopAlarm_isTestingSound.
Qed.

(** Two clicks on the test button after mount. *)
Lemma test_click_round_trip_witness :
  let a := initialApp (mkDate 0 8 29) 1000 perm_granted in
  let a1 := (step a ToggleTestSound).1 in
  timers a1 = [(1%nat, 21000)]
  ∧ state (step a1 ToggleTestSound).1 = state a.
Proof.
  intros a a1.
  destruct (test_click_round_trip (mkDate 0 8 29) 1000 perm_granted [])
    as [Hoff _].
  destruct (Hoff eq_refl) as (_ & _ & Ht & _ & _ & _ & Hback & _).
  split; [exact Ht|by apply Hback].
Defined.

(** ** Notifications and the event on display *)

Lemma fireDue_permission pending a :
  permission (fireDue pending a) = permission a
  ∧ notifications (fireDue pending a) = notifications a.
Proof.
  revert a. induction pending as [|[h d] rest IH]; intros a; cbn [fireDue];
    [done|].
  case_match; [|apply IH].
  destruct (IH (stopAlarm (setTimers (filter (λ t, t.1 ≠ h) (timers a)) a)))
    as [-> ->].
  by destruct (stopAlarm_permission
                 (setTimers (filter (λ t, t.1 ≠ h) (timers a)) a)) as [-> ->].
Qed.

Lemma step_notifications a ev :
  coherent a →
  permission (step a ev).1 = permission a
  ∧ notifications (step a ev).1
    = notifications a
      ++ match permission a with
         | perm_granted => notificationTitle <$> (step a ev).2
         | _ => []
         end.
Proof.
  intros H.
  assert (∀ b : App, permission b = permission a
                     ∧ notifications b = notifications a →
          permission b = permission a
          ∧ notifications b
            = notifications a
              ++ match permission a with
                 | perm_granted => notificationTitle <$> []
                 | _ => []
                 end) as Hsame.
  { intros b [-> ->]. by destruct (permission a); rewrite app_nil_r. }
  destruct ev as [r now| | |u saved| |t]; cbn [step fst snd].
  - by destruct (onmessage_cells r now a H) as (_ & ? & _ & _ & ?).
  - apply Hsame. unfold toggleTestSound.
    destruct (isTestingSound (state a)).
    + apply stopAlarm_permission.
    + apply (triggerAlarm_permission _ _ (setIsTestingSound true a)).
  - apply Hsame, stopAlarm_permission.
  - apply Hsame. unfold handleLogin. by destruct (JS.truthy (Some u)).
  - apply Hsame. unfold handleLogout.
    apply (stopAlarm_permission (setCurrentUser None a)).
  - apply Hsame. unfold elapse.
    apply (fireDue_permission _ (setClock (t `max` clock a) a)).
Qed.

Lemma run_notifications evs a :
  coherent a →
  permission (run evs a).1 = permission a
  ∧ notifications (run evs a).1
    = notifications a
      ++ match permission a with
         | perm_granted => notificationTitle <$> (run evs a).2
         | _ => []
         end.
Proof.
  revert a. induction evs as [|ev evs IH]; intros a H.
  - cbn [run fst snd]. by destruct (permission a); rewrite app_nil_r.
  - rewrite run_cons. cbn [fst snd].
    destruct (step_notifications a ev H) as [Hp Hn].
    destruct (IH (step a ev).1 (step_coherent a ev H)) as [Hp' Hn'].
    split; [congruence|]. rewrite Hn', Hn, Hp.
    destruct (permission a); rewrite ?app_nil_r; [done| |done].
    by rewrite fmap_app, app_assoc.
Qed.

(** X5. From any state the component reaches, along any further events,
    with the notification permission as it was at mount: when it is granted,
    exactly one notification is created for each class alarm a tick
    triggers, in the order of the triggers and titled with the class name;
    the test alarm, the stops and the timeouts create none; without the
    permission none is created at all. *)
Theorem one_notification_per_class_alarm
    (now0 : Date) (t0 : Z) (perm : Permission) (evs0 evs : list Event) :
  let a := (run evs0 (initialApp now0 t0 perm)).1 in
  let res := run evs a in
  notifications res.1
  = notifications a
    ++ match perm with
       | perm_granted => notificationTitle <$> res.2
       | _ => []
       end.
Proof.
  intros a res.
  assert (coherent a) as Hco by apply run_coherent, initialApp_coherent.
  destruct (run_notifications evs0 (initialApp now0 t0 perm)
              (initialApp_coherent _ _ _)) as [Hp _].
  destruct (run_notifications evs a Hco) as [_ Hn].
  fold a in Hp. cbn in Hp. by rewrite Hp in Hn.
Qed.

(** X6. A tick on a state the component reaches triggers classes in the
    order of the class list.  When it triggers several (classes that end
    at the same minute), the event on display afterwards is the one of the
    last class triggered, with a single timeout outstanding; when it
    triggers none, the event on display is what it was. *)
Theorem last_triggered_class_is_shown
    (now0 : Date) (t0 : Z) (perm : Permission) (evs : list Event)
    (r : State) (now : Date) :
  let a := (run evs (initialApp now0 t0 perm)).1 in
  let res := onmessage r now a in
  res.2 `sublist_of` classes r
  ∧ activeAlarm (state res.1)
    = match last res.2 with
      | Some c => Some (mkAlarmState true (name c) type_end)
      | None => activeAlarm (state a)
      end
  ∧ (res.2 ≠ [] → length (timers res.1) = 1%nat).
Proof.
  intros a res.
  assert (coherent a) as Hco by apply run_coherent, initialApp_coherent.
  destruct (onmessage_cells r now a Hco) as (Hco' & _ & Hsub & Hal & _).
  fold res in Hco', Hsub, Hal. split_and!; [done..|].
  intros Hne.
  destruct (last res.2) as [c|] eqn:El.
  - destruct Hco' as [_ [(Hid & _)|(_ & h & d & _ & _ & -> & _)]]; [|done].
    by rewrite Hid in Hal.
  - apply last_None in El. by destruct Hne.
Qed.

(** Two classes that end at 08:30: both are triggered, the second is the
    one on display. *)
Lemma last_triggered_class_is_shown_witness :
  let c := mkSchoolClass "1" "Math" "08:00" "08:30" ["الأحد"] true in
  let d := mkSchoolClass "2" "Art" "07:45" "08:30" ["الأحد"] true in
  let r := mkState (Some "u") [c; d] (mkDate 0 8 29) false None in
  let res := onmessage r (mkDate 0 8 30)
               (initialApp (mkDate 0 8 29) 1000 perm_granted) in
  res.2 = [c; d]
  ∧ activeAlarm (state res.1) = Some (mkAlarmState true "Art" type_end)
  ∧ length (timers res.1) = 1%nat.
Proof.
  intros c d r res.
  destruct (last_triggered_class_is_shown (mkDate 0 8 29) 1000 perm_granted []
              r (mkDate 0 8 30)) as (_ & Hshown & Hone).
  split_and!.
  - reflexivity.
  - exact Hshown.
  - apply Hone. discriminate.
Defined.

Lemma fireDue_activeAlarm pending a :
  activeAlarm (state (fireDue pending a)) = activeAlarm (state a)
  ∨ activeAlarm (state (fireDue pending a)) = None.
Proof.
  revert a. induction pending as [|[h d] rest IH]; intros a; cbn [fireDue];
    [by left|].
  case_match; [|apply IH]. right.
  destruct (IH (stopAlarm (setTimers (filter (λ t, t.1 ≠ h) (timers a)) a)))
    as [E|E]; [|done].
  by rewrite E, stopAlarm_activeAlarm.
Qed.

(** What an event can leave on display: what was there, nothing, the test
    event, or the end of a class it has just triggered. *)
Lemma step_activeAlarm a ev :
  coherent a →
  activeAlarm (state (step a ev).1) = activeAlarm (state a)
  ∨ activeAlarm (state (step a ev).1) = None
  ∨ activeAlarm (state (step a ev).1)
    = Some (mkAlarmState true "تجربة الجرس" type_start)
  ∨ ∃ c, c ∈ (step a ev).2
         ∧ activeAlarm (state (step a ev).1)
           = Some (mkAlarmState true (name c) type_end).
Proof.
  intros Hco. destruct ev as [r now| | |u saved| |t]; cbn [step fst snd].
  - destruct (onmessage_cells r now a Hco) as (_ & _ & _ & Hal & _).
    destruct (last (onmessage r now a).2) as [c|] eqn:El; [|by left].
    right. right. right. exists c. split; [|done].
    apply last_Some in El as [l' ->]. apply elem_of_app. right.
    apply list_elem_of_here.
  - unfold toggleTestSound. destruct (isTestingSound (state a)).
    + right. left. apply stopAlarm_activeAlarm.
    + right. right. left. apply triggerAlarm_activeAlarm.
  - right. left. apply stopAlarm_activeAlarm.
  - left. unfold handleLogin. by destruct (JS.truthy (Some u)).
  - right. left. unfold handleLogout.
    apply (stopAlarm_activeAlarm (setCurrentUser None a)).
  - unfold elapse.
    destruct (fireDue_activeAlarm (timers (setClock (t `max` clock a) a))
                (setClock (t `max` clock a) a)) as [E|E]; [left|right; left];
      exact E.
Qed.

Lemma run_activeAlarm evs a hits0 :
  coherent a →
  (∀ al, activeAlarm (state a) = Some al →
     al = mkAlarmState true "تجربة الجرس" type_start
     ∨ ∃ c, c ∈ hits0 ∧ al = mkAlarmState true (name c) type_end) →
  ∀ al, activeAlarm (state (run evs a).1) = Some al →
     al = mkAlarmState true "تجربة الجرس" type_start
     ∨ ∃ c, c ∈ hits0 ++ (run evs a).2
            ∧ al = mkAlarmState true (name c) type_end.
Proof.
  revert a hits0. induction evs as [|ev evs IH]; intros a hits0 Hco H0.
  { cbn [run fst snd]. by rewrite app_nil_r. }
  rewrite run_cons. cbn [fst snd]. rewrite app_assoc.
  apply IH; [by apply step_coherent|].
  intros al Hal.
  destruct (step_activeAlarm a ev Hco) as [E|[E|[E|(c & Hc & E)]]];
    rewrite E in Hal.
  - destruct (H0 al Hal) as [->|(c & Hc & ->)]; [by left|].
    right. exists c. split; [|done]. apply elem_of_app. by left.
  - done.
  - injection Hal as <-. by left.
  - injection Hal as <-. right. exists c. split; [|done].
    apply elem_of_app. by right.
Qed.

(** X17. What the component rings for.  In every state it reaches from
    mount, the event on display is either the test event of the test button
    or the end of a class that a tick of the run has triggered: no alarm is
    ever raised for the start of a class, and none for a class that was not
    hit. *)
Theorem rings_for_class_ends_and_tests_only
    (now0 : Date) (t0 : Z) (perm : Permission) (evs : list Event)
    (al : AlarmState) :
  let res := run evs (initialApp now0 t0 perm) in
  activeAlarm (state res.1) = Some al →
  isActive al = true
  ∧ ((type al = type_start ∧ className al = "تجربة الجرس")
     ∨ (type al = type_end ∧ ∃ c, c ∈ res.2 ∧ className al = name c)).
Proof.
  intros res Hal.
  destruct (run_activeAlarm evs (initialApp now0 t0 perm) []
              (initialApp_coherent _ _ _) ltac:(by intros ?) al Hal)
    as [->|(c & Hc & ->)].
  - split; [done|]. by left.
  - split; [done|]. right. split; [done|]. by exists c.
Qed.

(** The tick of 08:30 for a class that ends then. *)
Lemma rings_for_class_ends_and_tests_only_witness :
  let c := mkSchoolClass "1" "Math" "08:00" "08:30" ["الأحد"] true in
  let r := mkState (Some "u") [c] (mkDate 0 8 29) false None in
  let res := run [Tick r (mkDate 0 8 30)]
               (initialApp (mkDate 0 8 29) 1000 perm_granted) in
  activeAlarm (state res.1) = Some (mkAlarmState true "Math" type_end)
  ∧ ∃ x, x ∈ res.2 ∧ name x = "Math".
Proof.
  intros c r res. split; [reflexivity|].
  destruct (rings_for_class_ends_and_tests_only (mkDate 0 8 29) 1000
              perm_granted [Tick r (mkDate 0 8 30)]
              (mkAlarmState true "Math" type_end) eq_refl)
    as [_ [[Hstart _]|[_ (x & Hx & Hname)]]].
  - discriminate Hstart.
  - exists x. split; [exact Hx|]. symmetry. exact Hname.
Defined.

(** ** The form and the class list *)

Lemma truthy_Some (s : string) : JS.truthy (Some s) = true ↔ s ≠ EmptyString.
Proof.
  cbn. rewrite negb_true_iff. split.
  - intros H ->. by rewrite String.eqb_refl in H.
  - intros H. by apply String.eqb_neq.
Qed.

Lemma truthy_is_Some (x : option string) :
  JS.truthy x = true ↔ ∃ s, x = Some s ∧ s ≠ EmptyString.
Proof.
  destruct x as [s|].
  - rewrite truthy_Some. split; [by exists s|by intros (? & [= <-] & ?)].
  - split; [done|by intros (? & ? & _)].
Qed.

(** The guard of line 374 lets the form through exactly when the name and
    the two times are not empty and a day is selected. *)
Lemma handleSubmit_guard (f : Form.t) :
  negb (JS.truthy (Some (Form.newClassName f)))
  || negb (JS.truthy (Some (Form.startTime f)))
  || negb (JS.truthy (Some (Form.endTime f)))
  || (length (Form.selectedDays f) =? 0)%nat = false
  ↔ Form.newClassName f ≠ EmptyString ∧ Form.startTime f ≠ EmptyString
    ∧ Form.endTime f ≠ EmptyString ∧ Form.selectedDays f ≠ [].
Proof.
  rewrite !orb_false_iff, !negb_false_iff, !truthy_Some, Nat.eqb_neq.
  split.
  - intros (((? & ?) & ?) & Hl). split_and!; try done.
    intros E. by rewrite E in Hl.
  - intros (? & ? & ? & Hl). split_and!; try done.
    by destruct (Form.selectedDays f).
Qed.

Lemma applyEdit_other f e c : id c ≠ e → applyEdit f e c = c.
Proof. intros H. unfold applyEdit. by apply String.eqb_neq in H as ->. Qed.

Lemma applyEdit_id f e c :
  id (applyEdit f e c) = id c ∧ active (applyEdit f e c) = active c.
Proof. unfold applyEdit. by destruct (String.eqb (id c) e). Qed.

Lemma handleSubmit_edit
    (dateNow : nat) (f : Form.t) (prev : list SchoolClass) (e : string) :
  Form.newClassName f ≠ EmptyString ∧ Form.startTime f ≠ EmptyString
  ∧ Form.endTime f ≠ EmptyString ∧ Form.selectedDays f ≠ [] →
  Form.editingClassId f = Some e → e ≠ EmptyString →
  handleSubmit dateNow f prev = (applyEdit f e <$> prev, resetForm).
Proof.
  intros Hc%handleSubmit_guard He Hne. unfold handleSubmit.
  by rewrite Hc, He, (proj2 (truthy_Some e) Hne).
Qed.

Lemma handleSubmit_add (dateNow : nat) (f : Form.t) (prev : list SchoolClass) :
  Form.newClassName f ≠ EmptyString ∧ Form.startTime f ≠ EmptyString
  ∧ Form.endTime f ≠ EmptyString ∧ Form.selectedDays f ≠ [] →
  Form.editingClassId f = None ∨ Form.editingClassId f = Some EmptyString →
  handleSubmit dateNow f prev
  = (prev ++ [mkSchoolClass (JS.toString dateNow) (Form.newClassName f)
                (Form.startTime f) (Form.endTime f) (Form.selectedDays f)
                true],
     resetForm).
Proof.
  intros Hc%handleSubmit_guard He. unfold handleSubmit. rewrite Hc.
  by destruct He as [-> | ->].
Qed.

(** X7. [handleSubmit] and the class list.  A form with an empty name, an
    empty time or no day changes nothing.  A complete form that edits the
    class with id [e] keeps the length, the ids, the order and the enabled
    flags of the list, leaves every class with another id as it is, and
    gives the classes with id [e] the fields of the form; a complete form
    that edits nothing appends one enabled class whose id is the decimal
    [Date.now()], after the classes that were there.  In both cases the form
    is reset.  And if every class of the list had a name, two times and a
    day, every class of the new list has. *)
Theorem handleSubmit_on_the_class_list
    (dateNow : nat) (f : Form.t) (prev : list SchoolClass) :
  let res := handleSubmit dateNow f prev in
  let complete :=
    Form.newClassName f ≠ EmptyString ∧ Form.startTime f ≠ EmptyString
    ∧ Form.endTime f ≠ EmptyString ∧ Form.selectedDays f ≠ [] in
  (¬ complete → res = (prev, f))
  ∧ (complete → ∀ e, Form.editingClassId f = Some e → e ≠ EmptyString →
       res.2 = resetForm
       ∧ length res.1 = length prev
       ∧ id <$> res.1 = id <$> prev
       ∧ active <$> res.1 = active <$> prev
       ∧ (∀ k c, prev !! k = Some c → id c ≠ e → res.1 !! k = Some c)
       ∧ (∀ k c, prev !! k = Some c → id c = e →
            res.1 !! k
            = Some (mkSchoolClass e (Form.newClassName f) (Form.startTime f)
                      (Form.endTime f) (Form.selectedDays f) (active c))))
  ∧ (complete →
       Form.editingClassId f = None ∨ Form.editingClassId f = Some EmptyString →
       res = (prev ++ [mkSchoolClass (JS.toString dateNow) (Form.newClassName f)
                         (Form.startTime f) (Form.endTime f)
                         (Form.selectedDays f) true],
              resetForm))
  ∧ (Forall filledIn prev → Forall filledIn res.1).
Proof.
  intros res complete. subst res. split_and!.
  - intros Hn. unfold handleSubmit.
    destruct (_ || _ || _ || _) eqn:G; [done|].
    apply handleSubmit_guard in G. by destruct Hn.
  - intros Hc e He Hne. rewrite (handleSubmit_edit dateNow f prev e Hc He Hne).
    cbn [fst snd]. split_and!.
    + done.
    + by rewrite length_fmap.
    + rewrite <- !list_fmap_compose. apply list_fmap_ext.
      intros ???. apply applyEdit_id.
    + rewrite <- !list_fmap_compose. apply list_fmap_ext.
      intros ???. apply applyEdit_id.
    + intros k c Hk Hid. rewrite list_lookup_fmap, Hk. cbn.
      by rewrite applyEdit_other.
    + intros k c Hk Hid. rewrite list_lookup_fmap, Hk. cbn.
      unfold applyEdit. rewrite <- Hid, String.eqb_refl. done.
  - apply handleSubmit_add.
  - intros Hall. unfold handleSubmit.
    destruct (_ || _ || _ || _) eqn:G; [done|].
    apply handleSubmit_guard in G.
    destruct (JS.truthy (Form.editingClassId f)); cbn [fst].
    + apply Forall_fmap. eapply Forall_impl; [exact Hall|].
      intros c Hf. cbn. unfold applyEdit. by destruct (String.eqb _ _).
    + apply Forall_app. split; [done|]. by constructor.
Qed.

(** A form that renames the class with id 7, and a form left without a
    day. *)
Lemma handleSubmit_on_the_class_list_witness :
  let c := mkSchoolClass "7" "Math" "08:00" "08:45" ["الأحد"] false in
  let d := mkSchoolClass "8" "Art" "09:00" "09:45" ["الأحد"] true in
  (handleSubmit 99 (Form.mk "Maths" "08:00" "08:45" ["الأحد"] (Some "7") true)
     [c; d]).1 !! 0%nat
  = Some (mkSchoolClass "7" "Maths" "08:00" "08:45" ["الأحد"] false)
  ∧ handleSubmit 99 (Form.mk "Maths" "08:00" "08:45" [] (Some "7") true) [c; d]
    = ([c; d], Form.mk "Maths" "08:00" "08:45" [] (Some "7") true).
Proof.
  intros c d. split.
  - destruct (handleSubmit_on_the_class_list 99
                (Form.mk "Maths" "08:00" "08:45" ["الأحد"] (Some "7") true)
                [c; d]) as (_ & Hedit & _).
    destruct (Hedit ltac:(by split_and!) "7" eq_refl ltac:(done))
      as (_ & _ & _ & _ & _ & Hthis).
    apply (Hthis 0%nat c); reflexivity.
  - destruct (handleSubmit_on_the_class_list 99
                (Form.mk "Maths" "08:00" "08:45" [] (Some "7") true)
                [c; d]) as (Hinc & _).
    apply Hinc. by intros (_ & _ & _ & H).
Defined.

(** X8. Opening a class with [handleEdit] and submitting the form as it is
    leaves the class list as it was, when the ids of the list are distinct
    and the class has an id, a name, two times and a day.  Opening it with
    [handleDuplicate] and submitting appends a copy with a new id, the name
    marked as a copy, the same times and days, enabled, whatever the flag of
    the original; the classes that were there stay in place. *)
Theorem edit_or_duplicate_then_submit
    (dateNow : nat) (c : SchoolClass) (prev : list SchoolClass) :
  filledIn c →
  (NoDup (id <$> prev) → c ∈ prev → id c ≠ EmptyString →
   handleSubmit dateNow (handleEdit c) prev = (prev, resetForm))
  ∧ handleSubmit dateNow (handleDuplicate c) prev
    = (prev ++ [mkSchoolClass (JS.toString dateNow) (name c +:+ " (نسخة)")
                  (startTime c) (endTime c) (days c) true],
       resetForm).
Proof.
  intros (Hn & Hs & He & Hd). split.
  - intros Hnd Hin Hid.
    rewrite (handleSubmit_edit dateNow (handleEdit c) prev (id c)
               (conj Hn (conj Hs (conj He Hd))) eq_refl Hid).
    f_equal. rewrite <- (list_fmap_id prev) at 2.
    apply list_fmap_ext. intros k y Hy. cbn.
    destruct (decide (id y = id c)) as [E|E].
    + assert (y = c) as ->.
      { apply (NoDup_id_inj prev); [done| |done..].
        by eapply list_elem_of_lookup_2. }
      unfold applyEdit. rewrite String.eqb_refl. by destruct c.
    + by apply applyEdit_other.
  - apply handleSubmit_add; [|by left].
    split_and!; try done. cbn. by destruct (name c).
Qed.

(** A list of two classes: the first edited without a change, and
    duplicated. *)
Lemma edit_or_duplicate_then_submit_witness :
  let c := mkSchoolClass "7" "Math" "08:00" "08:45" ["الأحد"] false in
  let d := mkSchoolClass "8" "Art" "09:00" "09:45" ["الأحد"] true in
  handleSubmit 99 (handleEdit c) [c; d] = ([c; d], resetForm)
  ∧ (handleSubmit 99 (handleDuplicate c) [c; d]).1
    = [c; d; mkSchoolClass "99" "Math (نسخة)" "08:00" "08:45" ["الأحد"] true].
Proof.
  intros c d.
  destruct (edit_or_duplicate_then_submit 99 c [c; d]) as [Hedit Hdup].
  { by split_and!. }
  split.
  - apply Hedit; [|apply list_elem_of_here|done].
    cbn. repeat (constructor; [set_solver|]). constructor.
  - by rewrite Hdup.
Defined.

Lemma toggleDay_selected (day : string) (prev : list string) :
  day ∈ prev → toggleDay day prev = filter (λ d, d ≠ day) prev.
Proof.
  intros H. unfold toggleDay. cbn [JS.includes].
  by rewrite bool_decide_eq_true_2.
Qed.

Lemma toggleDay_unselected (day : string) (prev : list string) :
  day ∉ prev → toggleDay day prev = prev ++ [day].
Proof.
  intros H. unfold toggleDay. cbn [JS.includes].
  by rewrite bool_decide_eq_false_2.
Qed.

Lemma filter_absent (day : string) (l : list string) :
  day ∉ l → filter (λ d, d ≠ day) l = l.
Proof.
  intros Hl. induction l as [|x l IH]; [done|].
  apply not_elem_of_cons in Hl as [Hx Hl].
  rewrite filter_cons, decide_True by done. by rewrite IH.
Qed.

(** X9. [toggleDay] flips the selection of that day and of no other: the
    day is selected afterwards exactly when it was not before, every other
    day keeps its state and its place, a selection without repetitions
    stays so, and toggling twice gives the selection back (with the day moved
    to the end when it was selected). *)
Theorem toggleDay_flips_one_day (day : string) (prev : list string) :
  (day ∈ toggleDay day prev ↔ day ∉ prev)
  ∧ (∀ d, d ≠ day → (d ∈ toggleDay day prev ↔ d ∈ prev))
  ∧ filter (λ d, d ≠ day) (toggleDay day prev) = filter (λ d, d ≠ day) prev
  ∧ (NoDup prev → NoDup (toggleDay day prev))
  ∧ (NoDup prev → toggleDay day (toggleDay day prev) ≡ₚ prev)
  ∧ (day ∉ prev → toggleDay day (toggleDay day prev) = prev).
Proof.
  assert (filter (λ d, d ≠ day) [day] = []) as Hday.
  { rewrite filter_cons, decide_False by (by intros H). done. }
  destruct (decide (day ∈ prev)) as [Hin|Hin].
  - assert (day ∉ filter (λ d, d ≠ day) prev) as Hout
      by (rewrite list_elem_of_filter; by intros [? _]).
    rewrite (toggleDay_selected day prev Hin).
    rewrite (toggleDay_unselected day _ Hout).
    split_and!.
    + split; [by intros ?|done].
    + intros d Hd. rewrite list_elem_of_filter. naive_solver.
    + rewrite list_filter_filter. apply list_filter_iff. naive_solver.
    + apply NoDup_filter.
    + intros Hnd. clear Hout Hday.
      induction prev as [|x l IH]; [by apply elem_of_nil in Hin|].
      apply NoDup_cons in Hnd as [Hx Hnd].
      rewrite filter_cons. case_decide as E.
      * apply elem_of_cons in Hin as [->|Hin]; [done|].
        cbn. by rewrite IH.
      * subst x. rewrite (filter_absent day l Hx).
        symmetry. apply Permutation_cons_append.
    + done.
  - assert (day ∈ prev ++ [day]) as Hnow
      by (rewrite elem_of_app, list_elem_of_singleton; by right).
    rewrite (toggleDay_unselected day prev Hin).
    rewrite (toggleDay_selected day _ Hnow).
    rewrite filter_app, Hday, app_nil_r, (filter_absent day prev Hin).
    split_and!; try done.
    + intros d Hd. rewrite elem_of_app, list_elem_of_singleton. naive_solver.
    + intros Hnd. apply NoDup_app. split_and!; [done| |apply NoDup_singleton].
      intros x Hx ->%list_elem_of_singleton. done.
Qed.

(** Monday taken out of a selection of three days, and put back. *)
Lemma toggleDay_flips_one_day_witness :
  toggleDay "الاثنين" (toggleDay "الاثنين" ["الأحد"; "الاثنين"; "الثلاثاء"])
  ≡ₚ ["الأحد"; "الاثنين"; "الثلاثاء"].
Proof.
  destruct (toggleDay_flips_one_day "الاثنين" ["الأحد"; "الاثنين"; "الثلاثاء"])
    as (_ & _ & _ & _ & Htwice & _).
  apply Htwice.
  repeat (constructor; [set_solver|]). constructor.
Defined.

(** A class that a tick hits or that is reported as ongoing is enabled and
    in the list the closure reads. *)
Lemma hit_is_enabled (r : State) (now : Date) (a : App) (c : SchoolClass) :
  c ∈ (onmessage r now a).2 → c ∈ classes r ∧ active c = true.
Proof.
  intros Hc.
  destruct (step_hits_sound a (Tick r now) c Hc)
    as (r' & now' & [= <- <-] & _ & Hin & (Hact & _) & _).
  done.
Qed.

Lemma ongoing_is_enabled (r : State) (c : SchoolClass) :
  currentOngoingClass r = Some c → c ∈ classes r ∧ active c = true.
Proof.
  intros [Hin Hon]%find_some. split; [by apply list_elem_of_In|].
  unfold isOngoing in Hon. by destruct (active c).
Qed.

(** X10. [confirmDelete] with a class chosen removes the classes with that
    id and nothing else: the other classes stay, in their order; the choice
    is cleared, so that confirming again changes nothing; and from then on no
    tick triggers an alarm for that id and no class with that id is reported
    as ongoing.  With no class chosen, or with the empty id, nothing is
    deleted. *)
Theorem confirmDelete_removes_the_class (i : string) (prev : list SchoolClass) :
  (i ≠ EmptyString →
   let res := confirmDelete (Some i) prev in
   res.2 = None
   ∧ res.1 `sublist_of` prev
   ∧ (∀ c, c ∈ res.1 ↔ c ∈ prev ∧ id c ≠ i)
   ∧ ((∀ c, c ∈ prev → id c ≠ i) → res.1 = prev)
   ∧ confirmDelete res.2 res.1 = (res.1, None)
   ∧ (confirmDelete (Some i) res.1).1 = res.1
   ∧ (∀ r, classes r = res.1 →
        (∀ now a c, c ∈ (onmessage r now a).2 → id c ≠ i)
        ∧ (∀ c, currentOngoingClass r = Some c → id c ≠ i)))
  ∧ confirmDelete None prev = (prev, None)
  ∧ confirmDelete (Some EmptyString) prev = (prev, Some EmptyString).
Proof.
  split; [|done].
  intros Hi res. subst res. unfold confirmDelete.
  rewrite (proj2 (truthy_Some i) Hi). cbn [fst snd default JS.truthy].
  assert (∀ c, c ∈ filter (λ c, id c ≠ i) prev ↔ c ∈ prev ∧ id c ≠ i) as Hel.
  { intros c. rewrite list_elem_of_filter. naive_solver. }
  split_and!.
  - done.
  - apply sublist_filter.
  - exact Hel.
  - intros Hno. clear Hel. induction prev as [|c l IH]; [done|].
    rewrite filter_cons, decide_True by (apply Hno; by left).
    f_equal. apply IH. intros c' Hc'. apply Hno. by right.
  - done.
  - rewrite list_filter_filter. apply list_filter_iff. naive_solver.
  - intros r Hr. split.
    + intros now a c [Hc _]%hit_is_enabled. rewrite Hr in Hc.
      by apply Hel in Hc as [_ ?].
    + intros c [Hc _]%ongoing_is_enabled. rewrite Hr in Hc.
      by apply Hel in Hc as [_ ?].
Qed.

(** The class with id 7 deleted from a list of two; the tick of its end
    time then triggers nothing for it. *)
Lemma confirmDelete_removes_the_class_witness :
  let c := mkSchoolClass "7" "Math" "08:00" "08:30" ["الأحد"] true in
  let d := mkSchoolClass "8" "Art" "09:00" "09:45" ["الأحد"] true in
  let res := confirmDelete (Some "7") [c; d] in
  res.2 = None
  ∧ ∀ x, x ∈ (onmessage (mkState (Some "u") res.1 (mkDate 0 8 30) false None)
                 (mkDate 0 8 30) (initialApp (mkDate 0 8 30) 0 perm_granted)).2 →
         id x ≠ "7".
Proof.
  intros c d res.
  destruct (confirmDelete_removes_the_class "7" [c; d]) as [Hdel _].
  destruct (Hdel ltac:(done)) as (Hnone & _ & _ & _ & _ & _ & Hquiet).
  split; [exact Hnone|].
  intros x. apply (Hquiet (mkState (Some "u") res.1 (mkDate 0 8 30) false None)).
  reflexivity.
Defined.

Lemma toggleClassActive_lookup (i : string) (prev : list SchoolClass) (k : nat) :
  toggleClassActive i prev !! k
  = (λ c, if String.eqb (id c) i
          then mkSchoolClass (id c) (name c) (startTime c) (endTime c) (days c)
                 (negb (active c))
          else c) <$> prev !! k.
Proof. unfold toggleClassActive. by rewrite list_lookup_fmap. Qed.

(** X11. [toggleClassActive] switches the enabled flag of the classes with
    that id and changes nothing else: ids, names, times, days and order stay,
    classes with another id are untouched, and switching twice gives the list
    back.  Once the classes with that id are switched off, no tick triggers
    an alarm for that id and no class with that id is reported as ongoing. *)
Theorem toggleClassActive_switches_one_flag
    (i : string) (prev : list SchoolClass) :
  toggleClassActive i (toggleClassActive i prev) = prev
  ∧ length (toggleClassActive i prev) = length prev
  ∧ (∀ k c, prev !! k = Some c → id c ≠ i →
       toggleClassActive i prev !! k = Some c)
  ∧ (∀ k c, prev !! k = Some c → id c = i →
       toggleClassActive i prev !! k
       = Some (mkSchoolClass (id c) (name c) (startTime c) (endTime c) (days c)
                 (negb (active c))))
  ∧ ((∀ c, c ∈ prev → id c = i → active c = true) →
     ∀ r, classes r = toggleClassActive i prev →
       (∀ now a c, c ∈ (onmessage r now a).2 → id c ≠ i)
       ∧ (∀ c, currentOngoingClass r = Some c → id c ≠ i)).
Proof.
  split_and!.
  - unfold toggleClassActive. rewrite <- list_fmap_compose.
    rewrite <- (list_fmap_id prev) at 2. apply list_fmap_ext.
    intros _ c _. cbn. destruct (String.eqb (id c) i) eqn:E; cbn.
    + rewrite E, negb_involutive. by destruct c.
    + by rewrite E.
  - unfold toggleClassActive. by rewrite length_fmap.
  - intros k c Hk Hid. rewrite toggleClassActive_lookup, Hk. cbn.
    by apply String.eqb_neq in Hid as ->.
  - intros k c Hk Hid. rewrite toggleClassActive_lookup, Hk. cbn.
    by apply String.eqb_eq in Hid as ->.
  - intros Hon r Hr.
    assert (∀ c, c ∈ classes r → active c = true → id c ≠ i) as Hoff.
    { intros c Hc Hact Hid. rewrite Hr in Hc.
      apply list_elem_of_fmap in Hc as (c0 & -> & Hc0).
      destruct (String.eqb (id c0) i) eqn:E.
      - cbn in Hact. apply String.eqb_eq in E.
        rewrite (Hon c0 Hc0 E) in Hact. done.
      - by apply String.eqb_neq in E. }
    split.
    + intros now a c [Hc Hact]%hit_is_enabled. by apply Hoff.
    + intros c [Hc Hact]%ongoing_is_enabled. by apply Hoff.
Qed.

(** The class with id 7 switched off: the tick of its end time triggers
    nothing for it. *)
Lemma toggleClassActive_switches_one_flag_witness :
  let c := mkSchoolClass "7" "Math" "08:00" "08:30" ["الأحد"] true in
  let d := mkSchoolClass "8" "Art" "09:00" "09:45" ["الأحد"] true in
  toggleClassActive "7" [c; d] !! 0%nat
  = Some (mkSchoolClass "7" "Math" "08:00" "08:30" ["الأحد"] false)
  ∧ ∀ x, x ∈ (onmessage (mkState (Some "u") (toggleClassActive "7" [c; d])
                            (mkDate 0 8 30) false None)
                 (mkDate 0 8 30) (initialApp (mkDate 0 8 30) 0 perm_granted)).2 →
         id x ≠ "7".
Proof.
  intros c d.
  destruct (toggleClassActive_switches_one_flag "7" [c; d])
    as (_ & _ & _ & Hthis & Hquiet).
  split.
  - apply (Hthis 0%nat c); reflexivity.
  - intros x.
    apply (Hquiet
             ltac:(intros y [->|[->|[]%elem_of_nil]%elem_of_cons]%elem_of_cons;
                   [reflexivity|discriminate])
             (mkState (Some "u") (toggleClassActive "7" [c; d])
                (mkDate 0 8 30) false None)).
    reflexivity.
Defined.

(** ** Reordering by drag and drop *)

Lemma spliceOut_fmap {A B} (g : A → B) (k : nat) (l : list A) :
  spliceOut k (g <$> l) = g <$> spliceOut k l.
Proof. unfold spliceOut. by rewrite fmap_app, fmap_take, fmap_drop. Qed.

Lemma spliceIn_fmap {A B} (g : A → B) (k : nat) (x : A) (l : list A) :
  spliceIn k (g x) (g <$> l) = g <$> spliceIn k x l.
Proof.
  unfold spliceIn. by rewrite fmap_app, fmap_cons, fmap_take, fmap_drop.
Qed.

Lemma spliceOut_length {A} (k : nat) (l : list A) :
  (k < length l)%nat → S (length (spliceOut k l)) = length l.
Proof.
  intros H. unfold spliceOut. rewrite length_app, length_take, length_drop. lia.
Qed.

Lemma spliceIn_spliceOut {A} (k : nat) (x : A) (l : list A) :
  l !! k = Some x → spliceIn k x (spliceOut k l) = l.
Proof.
  intros H. pose proof (lookup_lt_Some _ _ _ H) as Hk.
  unfold spliceIn, spliceOut.
  rewrite take_app_le, drop_app_ge by (rewrite length_take; lia).
  rewrite take_take, length_take, Nat.min_id.
  replace (k - k `min` length l)%nat with 0%nat by lia.
  rewrite drop_0. by apply take_drop_middle.
Qed.

Lemma spliceOut_spliceIn {A} (k : nat) (x : A) (l : list A) :
  (k ≤ length l)%nat →
  spliceOut k (spliceIn k x l) = l ∧ spliceIn k x l !! k = Some x.
Proof.
  intros H. unfold spliceIn, spliceOut.
  assert (length (take k l) = k) as Hlen by (rewrite length_take; lia).
  split.
  - rewrite take_app_le, drop_app_ge by lia.
    rewrite take_take, Nat.min_id, Hlen.
    replace (S k - k)%nat with 1%nat by lia. cbn [drop]. rewrite drop_0.
    apply take_drop.
  - rewrite lookup_app_r by lia. rewrite Hlen.
    by replace (k - k)%nat with 0%nat by lia.
Qed.

(** X12. [handleDragEnd] with both indices inside the list moves one class
    and loses none: the new list is a rearrangement of the old one, the
    dragged class sits at the index it was dropped on, the other classes keep
    their order, dropping a class where it was changes nothing, and the
    two refs are cleared.  With a ref that is null the list and the refs stay
    as they are.  With a dragged index past the end, an undefined entry is
    put into the list. *)
Theorem handleDragEnd_moves_one_class
    (i j : nat) (classes : list SchoolClass) :
  ((i < length classes)%nat → (j < length classes)%nat →
   ∃ l', handleDragEnd (Some i) (Some j) classes = (Some <$> l', None, None)
         ∧ l' ≡ₚ classes
         ∧ l' !! j = classes !! i
         ∧ spliceOut j l' = spliceOut i classes
         ∧ (i = j → l' = classes))
  ∧ (∀ di dj, di = None ∨ dj = None →
       handleDragEnd di dj classes = (Some <$> classes, di, dj))
  ∧ ((length classes ≤ i)%nat →
       None ∈ (handleDragEnd (Some i) (Some j) classes).1.1).
Proof.
  split_and!.
  - intros Hi Hj.
    destruct (lookup_lt_is_Some_2 classes i Hi) as [x Hx].
    exists (spliceIn j x (spliceOut i classes)).
    pose proof (spliceOut_length i classes Hi) as Hlen.
    destruct (spliceOut_spliceIn j x (spliceOut i classes) ltac:(lia))
      as [Hout Hat].
    split_and!.
    + unfold handleDragEnd. rewrite list_lookup_fmap, Hx. cbn [fmap option_fmap
        option_map mjoin option_join mbind option_bind].
      change (mjoin (Some (Some x))) with (Some x).
      by rewrite spliceOut_fmap, spliceIn_fmap.
    + unfold spliceIn. rewrite <- Permutation_middle, take_drop.
      unfold spliceOut.
      rewrite <- (take_drop_middle classes i x Hx) at 3.
      by rewrite <- Permutation_middle.
    + by rewrite Hat, Hx.
    + exact Hout.
    + intros <-. by apply spliceIn_spliceOut.
  - intros di dj [-> | ->]; [done|]. by destruct di.
  - intros Hi. unfold handleDragEnd. cbn [fst].
    rewrite (lookup_ge_None_2 (Some <$> classes) i)
      by (by rewrite length_fmap).
    unfold spliceIn. apply elem_of_app. right. apply list_elem_of_here.
Qed.

(** The first of three classes dropped on the third. *)
Lemma handleDragEnd_moves_one_class_witness :
  let c1 := mkSchoolClass "1" "Math" "08:00" "08:45" ["الأحد"] true in
  let c2 := mkSchoolClass "2" "Art" "09:00" "09:45" ["الأحد"] true in
  let c3 := mkSchoolClass "3" "Music" "10:00" "10:45" ["الأحد"] true in
  ∃ l', handleDragEnd (Some 0%nat) (Some 2%nat) [c1; c2; c3]
        = (Some <$> l', None, None)
        ∧ l' ≡ₚ [c1; c2; c3] ∧ l' !! 2%nat = Some c1.
Proof.
  intros c1 c2 c3.
  destruct (handleDragEnd_moves_one_class 0 2 [c1; c2; c3]) as [Hmove _].
  destruct (Hmove ltac:(cbn; lia) ltac:(cbn; lia))
    as (l' & H1 & H2 & H3 & _).
  exists l'. by split_and!.
Defined.

(** ** The background clock *)

Lemma Worker_run_snoc (msgs : list string) (d : string) (w : Worker.t) :
  Worker.run (msgs ++ [d]) w = Worker.onmessage d (Worker.run msgs w).
Proof. unfold Worker.run. by rewrite fold_left_app. Qed.

Lemma Worker_lastControl_snoc (msgs : list string) (d : string) :
  Worker.lastControl (msgs ++ [d])
  = if decide (d = "start" ∨ d = "stop") then Some d
    else Worker.lastControl msgs.
Proof.
  unfold Worker.lastControl. rewrite filter_app, filter_cons, filter_nil.
  case_decide; [apply last_snoc|by rewrite app_nil_r].
Qed.

(** Between two messages the worker holds at most one running interval,
    the one [timer] names, and holds one exactly when the last of the
    ["start"] and ["stop"] messages was a ["start"]. *)
Lemma Worker_run_inv (msgs : list string) :
  let w := Worker.run msgs Worker.initial in
  (0 < Worker.nextHandle w)%nat
  ∧ (∀ h, Worker.timer w = Some h → h ≠ 0%nat)
  ∧ ((Worker.intervals w = [] ∧ Worker.lastControl msgs ≠ Some "start")
     ∨ (∃ h, Worker.timer w = Some h ∧ Worker.intervals w = [h]
             ∧ Worker.lastControl msgs = Some "start")).
Proof.
  induction msgs as [|d msgs IH] using rev_ind.
  { cbn. split_and!; [lia|done|by left]. }
  rewrite Worker_run_snoc, Worker_lastControl_snoc.
  set (w := Worker.run msgs Worker.initial) in *. cbn zeta in IH. clearbody w.
  destruct IH as (Hn & Hpos & Hrun).
  assert ((if truthyHandle (Worker.timer w)
           then Worker.intervals (Worker.clearInterval (Worker.timer w) w)
           else Worker.intervals w) = []
          ∧ Worker.intervals (Worker.clearInterval (Worker.timer w) w) = [])
    as [Hclear Hclear'].
  { destruct Hrun as [(Hi & _)|(h & Ht & Hi & _)].
    - unfold Worker.clearInterval. rewrite Hi.
      by destruct (Worker.timer w), (truthyHandle _).
    - rewrite Ht. cbn. rewrite Hi, filter_cons, decide_False by (by intros H).
      specialize (Hpos h Ht). apply Nat.eqb_neq in Hpos. by rewrite Hpos. }
  intros w0. subst w0. unfold Worker.onmessage.
  destruct (String.eqb_spec d "start") as [->|Hstart].
  - rewrite decide_True by (by left).
    assert (Worker.nextHandle (if truthyHandle (Worker.timer w)
                               then Worker.clearInterval (Worker.timer w) w
                               else w) = Worker.nextHandle w) as Hnx.
    { destruct (truthyHandle _); [|done]. by destruct (Worker.timer w). }
    assert (Worker.intervals (if truthyHandle (Worker.timer w)
                              then Worker.clearInterval (Worker.timer w) w
                              else w) = []) as Hint.
    { by destruct (truthyHandle _). }
    cbn [Worker.nextHandle Worker.timer Worker.intervals].
    rewrite Hnx, Hint. split_and!; [lia|intros ? [= <-]; lia|].
    right. by exists (Worker.nextHandle w).
  - destruct (String.eqb_spec d "stop") as [->|Hstop].
    + rewrite decide_True by (by right).
      assert (∀ h, Worker.nextHandle (Worker.clearInterval h w)
                   = Worker.nextHandle w
                   ∧ Worker.timer (Worker.clearInterval h w) = Worker.timer w)
        as Hsame by (by intros [?|]).
      destruct (Hsame (Worker.timer w)) as [-> ->].
      split_and!; [done..|]. left. by split.
    + rewrite decide_False by naive_solver. by split_and!.
Qed.

(** X13. Whatever messages the worker has received since it was created,
    at most one interval is running, so at most one tick is posted per
    second; one is running exactly when the last ["start"] or ["stop"]
    message was a ["start"]; a repeated ["start"] replaces the interval
    instead of adding one; and a message that is neither is ignored. *)
Theorem worker_runs_at_most_one_interval (msgs : list string) :
  let w := Worker.run msgs Worker.initial in
  (Worker.ticksPerSecond w ≤ 1)%nat
  ∧ (Worker.ticksPerSecond w = 1%nat ↔ Worker.lastControl msgs = Some "start")
  ∧ Worker.ticksPerSecond (Worker.onmessage "start" w) = 1%nat
  ∧ Worker.ticksPerSecond (Worker.onmessage "stop" w) = 0%nat
  ∧ (∀ d, d ≠ "start" → d ≠ "stop" → Worker.onmessage d w = w).
Proof.
  intros w. unfold Worker.ticksPerSecond.
  pose proof (Worker_run_inv msgs) as (_ & _ & Hrun). fold w in Hrun.
  pose proof (Worker_run_inv (msgs ++ ["start"])) as (_ & _ & Hstart).
  pose proof (Worker_run_inv (msgs ++ ["stop"])) as (_ & _ & Hstop).
  rewrite Worker_run_snoc, Worker_lastControl_snoc in Hstart, Hstop.
  fold w in Hstart, Hstop.
  split_and!.
  - destruct Hrun as [(-> & _)|(h & _ & -> & _)]; cbn; lia.
  - destruct Hrun as [(-> & Hl)|(h & _ & -> & Hl)]; cbn; [|done].
    split; [lia|done].
  - destruct Hstart as [(_ & Hl)|(h & _ & -> & _)]; [|done].
    by rewrite decide_True in Hl by (by left).
  - destruct Hstop as [(-> & _)|(h & _ & _ & Hl)]; [done|].
    by rewrite decide_True in Hl by (by right).
  - intros d H1 H2. unfold Worker.onmessage.
    apply String.eqb_neq in H1, H2. by rewrite H1, H2.
Qed.

(** The messages start, start, stop, start. *)
Lemma worker_runs_at_most_one_interval_witness :
  Worker.ticksPerSecond
    (Worker.run ["start"; "start"; "stop"; "start"] Worker.initial) = 1%nat.
Proof.
  destruct (worker_runs_at_most_one_interval
              ["start"; "start"; "stop"; "start"]) as (_ & Hiff & _).
  apply Hiff. reflexivity.
Defined.

(** ** Persistence *)

Lemma list_ascii_of_append (a b : string) :
  list_ascii_of_string (a +:+ b)
  = list_ascii_of_string a ++ list_ascii_of_string b.
Proof. induction a as [|ch a IH]; [done|]. simpl. by rewrite IH. Qed.

Lemma append_inj_r (a b s : string) : a +:+ s = b +:+ s → a = b.
Proof.
  intros H%(f_equal list_ascii_of_string).
  rewrite !list_ascii_of_append in H. apply app_inv_tail in H.
  apply (f_equal string_of_list_ascii) in H.
  by rewrite !string_of_list_ascii_of_string in H.
Qed.

Lemma userKey_inj (u u' s : string) :
  Storage.userKey u +:+ s = Storage.userKey u' +:+ s → u = u'.
Proof.
  intros H%append_inj_r. unfold Storage.userKey in H.
  apply String.app_inj in H. by apply append_inj_r in H.
Qed.

(** The last character of a key tells the kind of the entry. *)
Lemma key_last (k s : string) (ch : ascii) :
  last (list_ascii_of_string s) = Some ch →
  last (list_ascii_of_string (k +:+ s)) = Some ch.
Proof. intros H. by rewrite list_ascii_of_append, last_app, H. Qed.

Lemma keys_of_other_kind (u u' : string) :
  Storage.classesKey u ≠ Storage.soundKey u'
  ∧ Storage.classesKey u ≠ Storage.soundNameKey u'
  ∧ Storage.soundKey u ≠ Storage.soundNameKey u'.
Proof.
  split_and!; intros H%(f_equal (λ k, last (list_ascii_of_string k)));
    unfold Storage.classesKey, Storage.soundKey, Storage.soundNameKey in H;
    erewrite !key_last in H by reflexivity; done.
Qed.

Lemma keys_of_other_user (u u' : string) :
  u ≠ u' →
  Storage.classesKey u ≠ Storage.classesKey u'
  ∧ Storage.soundKey u ≠ Storage.soundKey u'
  ∧ Storage.soundNameKey u ≠ Storage.soundNameKey u'.
Proof.
  intros Hne. split_and!; intros H; by apply userKey_inj in H.
Qed.

Lemma session_key_apart (u : string) :
  Storage.classesKey u ≠ "last_active_user"
  ∧ Storage.soundKey u ≠ "last_active_user"
  ∧ Storage.soundNameKey u ≠ "last_active_user".
Proof. by split_and!. Qed.

(** What a user's entries and the session entry read from the store. *)
Lemma loadSound_ext (u : string) (s s' : gmap string string) :
  s' !! Storage.soundKey u = s !! Storage.soundKey u →
  s' !! Storage.soundNameKey u = s !! Storage.soundNameKey u →
  Storage.loadSound u s' = Storage.loadSound u s.
Proof.
  intros H1 H2. unfold Storage.loadSound, Storage.getItem. by rewrite H1, H2.
Qed.

(** X14. The entries of the store are kept apart.  Saving the classes or
    the sound of a user changes neither what another user loads (the
    classes text, the sound and its name) nor the remembered session, saving
    the classes leaves the user's own sound alone and saving the sound leaves
    the user's own classes alone, whatever the user names are; and logging in
    or out changes no user's classes or sound. *)
Theorem store_entries_are_kept_apart
    (u u' t json : string) (sound soundName : option string)
    (store : gmap string string) :
  let s1 := Storage.saveClasses (Some u) json store in
  let s2 := (Storage.saveSound (Some u) sound soundName store).1 in
  (u' ≠ u →
     Storage.getItem (Storage.classesKey u') s1
     = Storage.getItem (Storage.classesKey u') store
     ∧ Storage.getItem (Storage.classesKey u') s2
       = Storage.getItem (Storage.classesKey u') store
     ∧ Storage.loadSound u' s1 = Storage.loadSound u' store
     ∧ Storage.loadSound u' s2 = Storage.loadSound u' store)
  ∧ Storage.loadSound u s1 = Storage.loadSound u store
  ∧ Storage.getItem (Storage.classesKey u) s2
    = Storage.getItem (Storage.classesKey u) store
  ∧ Storage.loadUser s1 = Storage.loadUser store
  ∧ Storage.loadUser s2 = Storage.loadUser store
  ∧ Storage.getItem (Storage.classesKey u) (Storage.login t store)
    = Storage.getItem (Storage.classesKey u) store
  ∧ Storage.loadSound u (Storage.login t store) = Storage.loadSound u store
  ∧ Storage.getItem (Storage.classesKey u) (Storage.logout store)
    = Storage.getItem (Storage.classesKey u) store
  ∧ Storage.loadSound u (Storage.logout store) = Storage.loadSound u store.
Proof.
  intros s1 s2.
  destruct (session_key_apart u) as (Hl1 & Hl2 & Hl3).
  assert (∀ k, k ≠ Storage.classesKey u → s1 !! k = store !! k) as Hs1.
  { intros k Hk. subst s1. unfold Storage.saveClasses, Storage.setItem.
    destruct (JS.truthy (Some u)); [|done]. by rewrite lookup_insert_ne. }
  assert (∀ k, k ≠ Storage.soundKey u → k ≠ Storage.soundNameKey u →
               s2 !! k = store !! k) as Hs2.
  { intros k Hk1 Hk2. subst s2.
    unfold Storage.saveSound, Storage.setItem, Storage.removeItem.
    destruct (JS.truthy (Some u)); [|done]. cbn [fst].
    destruct (JS.truthy sound).
    - by rewrite !lookup_insert_ne.
    - by rewrite !lookup_delete_ne. }
  assert (∀ k, k ≠ "last_active_user" →
               Storage.login t store !! k = store !! k
               ∧ Storage.logout store !! k = store !! k) as Hs3.
  { intros k Hk. unfold Storage.login, Storage.logout, Storage.setItem,
      Storage.removeItem.
    rewrite lookup_delete_ne by done.
    destruct (JS.truthy (Some t)); [|done]. by rewrite lookup_insert_ne. }
  destruct (keys_of_other_kind u u) as (Hk1 & Hk2 & Hk3).
  split_and!.
  - intros Hne.
    destruct (keys_of_other_user u' u Hne) as (Ho1 & Ho2 & Ho3).
    destruct (keys_of_other_kind u' u) as (Hc1 & Hc2 & _).
    destruct (keys_of_other_kind u u') as (Hd1 & Hd2 & Hd3).
    destruct (keys_of_other_kind u' u) as (_ & _ & He).
    unfold Storage.getItem. split_and!.
    + by apply Hs1.
    + by apply Hs2.
    + apply loadSound_ext; by apply Hs1.
    + apply loadSound_ext; by apply Hs2.
  - apply loadSound_ext; by apply Hs1.
  - by apply Hs2.
  - unfold Storage.loadUser, Storage.getItem. by rewrite Hs1.
  - unfold Storage.loadUser, Storage.getItem. by rewrite Hs2.
  - by apply Hs3.
  - apply loadSound_ext; by apply Hs3.
  - by apply Hs3.
  - apply loadSound_ext; by apply Hs3.
Qed.

(** Two users whose names overlap: saving the sound of [a_custom] leaves
    the entries of [a] as they are. *)
Lemma store_entries_are_kept_apart_witness :
  let store : gmap string string :=
    <["user_a_classes" := "[]"]> (<["user_a_custom_alarm_sound" := "data:a"]> ∅) in
  Storage.loadSound "a"
    (Storage.saveSound (Some "a_custom") (Some "data:b") None store).1
  = Storage.loadSound "a" store.
Proof.
  intros store.
  destruct (store_entries_are_kept_apart "a_custom" "a" "t" "[]"
              (Some "data:b") None store) as (Hother & _).
  apply Hother. discriminate.
Defined.

(** X15. What is saved is what is loaded.  For a logged-in user, a custom
    sound that is saved is loaded back with its name (a missing name comes
    back as the empty string) and is the source given to the audio element;
    with no custom sound both entries are removed and the default sound is
    loaded; the classes text saved is the text read back; and the user
    remembered at login is the one restored at the next start, until a
    logout.  With no user nothing is written. *)
Theorem saved_is_loaded_back
    (u json : string) (sound soundName : option string)
    (store : gmap string string) :
  (u ≠ EmptyString →
   let res := Storage.saveSound (Some u) sound soundName store in
   Storage.loadSound u res.1
   = (if JS.truthy sound
      then (sound, Some (Storage.orElse soundName EmptyString),
            default EmptyString sound)
      else (None, None, Storage.DEFAULT_ALARM_SOUND))
   ∧ res.2 = Some (Storage.loadSound u res.1).2
   ∧ Storage.getItem (Storage.classesKey u)
       (Storage.saveClasses (Some u) json store) = Some json
   ∧ Storage.loadUser (Storage.login u store) = Some u
   ∧ Storage.loadUser (Storage.logout (Storage.login u store)) = None)
  ∧ Storage.loadUser (Storage.login EmptyString store) = Storage.loadUser store
  ∧ (∀ x, x = None ∨ x = Some EmptyString →
       Storage.saveClasses x json store = store
       ∧ Storage.saveSound x sound soundName store = (store, None)).
Proof.
  split_and!.
  - intros Hu res. subst res.
    destruct (keys_of_other_kind u u) as (_ & _ & Hk).
    unfold Storage.saveSound, Storage.saveClasses, Storage.loadSound,
      Storage.login, Storage.logout, Storage.loadUser, Storage.getItem,
      Storage.setItem, Storage.removeItem.
    rewrite (proj2 (truthy_Some u) Hu). cbn [fst snd].
    split_and!.
    + destruct (JS.truthy sound) eqn:Hs.
      * apply truthy_is_Some in Hs as (s & -> & Hs).
        change (default EmptyString (Some s)) with s.
        rewrite lookup_insert_ne, !lookup_insert_eq by done.
        unfold Storage.orElse at 2.
        by rewrite (proj2 (truthy_Some s) Hs).
      * rewrite lookup_delete_ne, !lookup_delete_eq by done. done.
    + destruct (JS.truthy sound) eqn:Hs.
      * apply truthy_is_Some in Hs as (s & -> & Hs).
        change (default EmptyString (Some s)) with s.
        rewrite lookup_insert_ne, !lookup_insert_eq by done.
        unfold Storage.orElse. by rewrite !(proj2 (truthy_Some s) Hs).
      * rewrite lookup_delete_ne, !lookup_delete_eq by done.
        unfold Storage.orElse. by rewrite Hs.
    + apply lookup_insert_eq.
    + rewrite lookup_insert_eq. by rewrite (proj2 (truthy_Some u) Hu).
    + by rewrite lookup_delete_eq.
  - done.
  - by intros x [-> | ->].
Qed.

(** A sound saved without a name, for the user [a]. *)
Lemma saved_is_loaded_back_witness :
  Storage.loadSound "a" (Storage.saveSound (Some "a") (Some "data:b") None ∅).1
  = (Some "data:b", Some EmptyString, "data:b").
Proof.
  destruct (saved_is_loaded_back "a" "[]" (Some "data:b") None ∅) as (Hsave & _).
  destruct (Hsave ltac:(discriminate)) as (Hload & _).
  exact Hload.
Defined.

(** * The component with its installed tick handler *)

(** ** Actions and events *)

Lemma setClasses_same_user (u : string) (cls : list SchoolClass) (a : App) :
  currentUser (state a) = Some u →
  setClasses cls (setCurrentUser (Some u) a) = setClasses cls a.
Proof.
  intros H. destruct a as [[u0 c0 ct ts al] f l r au cl tm nx pm ns].
  cbn in H. by subst.
Qed.

(** An action is the event it amounts to, or nothing at all. *)
Lemma act_eventOf (c : Component) (x : Action) :
  match eventOf c x with
  | Some ev => step (cells c) ev = (cells (act c x).1, (act c x).2)
  | None => act c x = (c, [])
  end.
Proof.
  destruct x as [now| | |u saved| |cls|t]; cbn [eventOf act].
  - cbn [step cells fst snd]. by destruct (onmessage _ _ _).
  - by destruct (JS.truthy (currentUser (state (cells c)))).
  - done.
  - by destruct (JS.truthy (Some u)) eqn:E; cbn [step]; rewrite ?E.
  - by destruct (JS.truthy (currentUser (state (cells c)))).
  - destruct (currentUser (state (cells c))) as [u|] eqn:Eu; [|done].
    destruct (JS.truthy (Some u)) eqn:E; [|done].
    cbn [step cells fst snd]. rewrite E. unfold handleLogin. rewrite E.
    by rewrite (setClasses_same_user u cls (cells c) Eu).
  - done.
Qed.

Lemma acts_cons (x : Action) (xs : list Action) (c : Component) :
  acts (x :: xs) c
  = ((acts xs (act c x).1).1, (act c x).2 ++ (acts xs (act c x).1).2).
Proof.
  cbn [acts]. destruct (act c x) as [c1 h1]; cbn [fst snd].
  by destruct (acts xs c1).
Qed.

Lemma acts_app (xs ys : list Action) (c : Component) :
  acts (xs ++ ys) c
  = ((acts ys (acts xs c).1).1, (acts xs c).2 ++ (acts ys (acts xs c).1).2).
Proof.
  revert c. induction xs as [|x xs IH]; intros c.
  - cbn [acts fst snd]. rewrite app_nil_l. by destruct (acts ys c).
  - rewrite <- app_comm_cons, !acts_cons, IH. cbn [fst snd].
    by rewrite app_assoc.
Qed.

(** A list of actions is the run of its events. *)
Lemma acts_trace (xs : list Action) (c : Component) :
  run (trace c xs) (cells c) = (cells (acts xs c).1, (acts xs c).2).
Proof.
  revert c. induction xs as [|x xs IH]; intros c; [done|].
  rewrite acts_cons. cbn [trace fst snd].
  pose proof (act_eventOf c x) as H.
  destruct (eventOf c x) as [ev|].
  - rewrite run_cons, H. cbn [fst snd]. by rewrite IH.
  - rewrite H. cbn [fst snd]. by rewrite IH.
Qed.

Lemma acts_coherent (xs : list Action) (c : Component) :
  coherent (cells c) → coherent (cells (acts xs c).1).
Proof.
  intros H. pose proof (run_coherent (trace c xs) (cells c) H) as H'.
  by rewrite acts_trace in H'.
Qed.

(** ** What the installed closure reads *)

Lemma forEach_user_list dn ts cls a hits :
  currentUser (state (fold_left (checkClass dn ts) cls (a, hits)).1)
  = currentUser (state a)
  ∧ classes (state (fold_left (checkClass dn ts) cls (a, hits)).1)
    = classes (state a).
Proof.
  revert a hits. induction cls as [|c cls IH]; intros a hits; [done|].
  cbn [fold_left].
  destruct (checkClass_cases dn ts a hits c) as [E|(a1 & a2 & E1 & E2 & E)];
    rewrite E; [apply IH|].
  destruct (IH a2 (hits ++ [c])) as [-> ->].
  assert (state a2 = state a1) as -> by (rewrite E2; by destruct (permission a1)).
  rewrite E1, triggerAlarm_state. done.
Qed.

Lemma fireDue_user_list pending a :
  currentUser (state (fireDue pending a)) = currentUser (state a)
  ∧ classes (state (fireDue pending a)) = classes (state a).
Proof.
  revert a. induction pending as [|[h d] rest IH]; intros a; cbn [fireDue];
    [done|].
  case_match; [|apply IH].
  destruct (IH (stopAlarm (setTimers (filter (λ t, t.1 ≠ h) (timers a)) a)))
    as [-> ->].
  by rewrite stopAlarm_state.
Qed.

(** The installed closure reads the user and the class list of the
    current state: only its [activeAlarm] can be out of date. *)
Lemma act_inSync (c : Component) (x : Action) :
  currentUser (handler c) = currentUser (state (cells c))
  ∧ classes (handler c) = classes (state (cells c)) →
  currentUser (handler (act c x).1) = currentUser (state (cells (act c x).1))
  ∧ classes (handler (act c x).1) = classes (state (cells (act c x).1)).
Proof.
  intros [Hu Hc].
  destruct x as [now| | |u saved| |cls|t]; cbn [act fst cells handler].
  - rewrite Hu, Hc. unfold onmessage, checkAlarms.
    destruct (_ || _); cbn [fst]; [done|].
    set (a0 := rollover _ _).
    destruct (forEach_user_list (dayName now) (timeStr now)
                (classes (handler c)) a0 []) as [-> ->].
    unfold a0, rollover. by destruct (bool_decide (_ ≠ _)).
  - destruct (JS.truthy (currentUser (state (cells c)))); [|done].
    cbn [fst cells handler]. rewrite Hu, Hc. unfold toggleTestSound.
    destruct (isTestingSound (state (cells c))).
    + by rewrite stopAlarm_state.
    + by rewrite triggerAlarm_state.
  - by rewrite Hu, Hc, stopAlarm_state.
  - by destruct (JS.truthy (Some u)).
  - by destruct (JS.truthy (currentUser (state (cells c)))).
  - by destruct (JS.truthy (currentUser (state (cells c)))).
  - rewrite Hu, Hc. unfold elapse.
    by destruct (fireDue_user_list (timers (setClock (t `max` clock (cells c)) (cells c)))
                   (setClock (t `max` clock (cells c)) (cells c))) as [-> ->].
Qed.

Lemma acts_inSync (xs : list Action) (c : Component) :
  currentUser (handler c) = currentUser (state (cells c))
  ∧ classes (handler c) = classes (state (cells c)) →
  currentUser (handler (acts xs c).1) = currentUser (state (cells (acts xs c).1))
  ∧ classes (handler (acts xs c).1) = classes (state (cells (acts xs c).1)).
Proof.
  revert c. induction xs as [|x xs IH]; intros c H; [done|].
  rewrite acts_cons. cbn [fst]. by apply IH, act_inSync.
Qed.

(** ** What a trigger leaves behind *)

(** After a tick the event on display is the end event of the last class
    the tick has triggered, if it has triggered one, whatever the state
    before. *)
Lemma forEach_alarm dn ts cls a hits :
  ∃ new,
    (fold_left (checkClass dn ts) cls (a, hits)).2 = hits ++ new
    ∧ activeAlarm (state (fold_left (checkClass dn ts) cls (a, hits)).1)
      = match last new with
        | Some c => Some (endEvent c)
        | None => activeAlarm (state a)
        end.
Proof.
  revert a hits. induction cls as [|c cls IH]; intros a hits.
  { exists []. by rewrite app_nil_r. }
  cbn [fold_left].
  destruct (checkClass_cases dn ts a hits c) as [E|(a1 & a2 & E1 & E2 & E)];
    rewrite E; [apply IH|].
  destruct (IH a2 (hits ++ [c])) as (new & Hn & Hal).
  exists (c :: new). split; [by rewrite Hn, <- app_assoc|].
  rewrite Hal.
  assert (activeAlarm (state a2) = Some (endEvent c)) as ->.
  { assert (state a2 = state a1) as ->
      by (rewrite E2; by destruct (permission a1)).
    rewrite E1. apply triggerAlarm_activeAlarm. }
  destruct new as [|c' l]; [done|].
  rewrite last_cons_cons. destruct (last (c' :: l)) eqn:El; [done|].
  by apply last_None in El.
Qed.

Lemma onmessage_alarm r now a :
  activeAlarm (state (onmessage r now a).1)
  = match last (onmessage r now a).2 with
    | Some c => Some (endEvent c)
    | None => activeAlarm (state a)
    end.
Proof.
  unfold onmessage, checkAlarms. destruct (_ || _); [done|].
  set (a0 := rollover _ _).
  destruct (forEach_alarm (dayName now) (timeStr now) (classes r) a0 [])
    as (new & Hn & Hal).
  cbn [app] in Hn. rewrite Hn, Hal.
  unfold a0, rollover. by destruct (bool_decide (_ ≠ _)).
Qed.

(** A class in the hits of a tick: the tick has passed the guard, found
    the class ending and not yet fired, has recorded its id and has put an
    end event on display. *)
Lemma hit_effects r now a c :
  c ∈ (onmessage r now a).2 →
  processed r = true ∧ c ∈ classes r ∧ endsAt now c
  ∧ id c ∉ firedAtCheck now a
  ∧ id c ∈ firedAlarmsRef (onmessage r now a).1
  ∧ ∃ c', last (onmessage r now a).2 = Some c'
          ∧ activeAlarm (state (onmessage r now a).1) = Some (endEvent c').
Proof.
  intros Hc.
  destruct (step_hits_sound a (Tick r now) c Hc)
    as (r' & now' & [= <- <-] & Hp & Hin & He & Hn).
  destruct (onmessage_processed r now a Hp) as (_ & Hf & _).
  split_and!; try done.
  - rewrite Hf. apply elem_of_union. right.
    apply elem_of_list_to_set, list_elem_of_fmap. by exists c.
  - rewrite onmessage_alarm.
    destruct (last (onmessage r now a).2) as [c'|] eqn:El; [by exists c'|].
    apply last_None in El. rewrite El in Hc. by apply elem_of_nil in Hc.
Qed.

(** ** A tick while an alarm rings *)

(** C10. The claim fails on the code for its second case.  A user logs in
    with two classes, Math ending at 08:30 and Art at 08:31, both active on
    Sunday.  A tick of Sunday 08:30 triggers Math.  The tick of 08:31 comes
    while the alarm of Math is active, and it is processed all the same: the
    closure that [worker.onmessage] holds is the one installed at login,
    whose [activeAlarm] is [null], so the guard of line 255 lets the tick
    through.  The tick empties the fired-set, moves the last-seen minute,
    triggers Art, replaces the event on display, sets a new timeout and
    creates a notification.  The same happens to the test alarm: a tick of
    08:31 that comes while the test sound rings triggers Art in its place. *)
Theorem tick_while_ringing_is_processed :
  let math := mkSchoolClass "1" "Math" "08:00" "08:30" ["الأحد"] true in
  let art := mkSchoolClass "2" "Art" "08:00" "08:31" ["الأحد"] true in
  let c0 := mounted (mkDate 0 8 29) 0 perm_granted in
  let c1 := (acts [SubmitLogin "u" [math; art]; WorkerTick (mkDate 0 8 30)]
               c0).1 in
  let res := act c1 (WorkerTick (mkDate 0 8 31)) in
  let t1 := (acts [SubmitLogin "u" [math; art]; WorkerTick (mkDate 0 8 30);
                   PressStop; ClickTest] c0).1 in
  let tes := act t1 (WorkerTick (mkDate 0 8 31)) in
  (currentUser (state (cells c1)) = Some "u"
   ∧ activeAlarm (state (cells c1)) = Some (endEvent math)
   ∧ activeAlarm (handler c1) = None
   ∧ res.2 = [art]
   ∧ activeAlarm (state (cells res.1)) = Some (endEvent art)
   ∧ ("1" ∈ firedAlarmsRef (cells c1) ∧ "1" ∉ firedAlarmsRef (cells res.1)
      ∧ "2" ∈ firedAlarmsRef (cells res.1))
   ∧ (lastMinuteRef (cells c1) = 30 ∧ lastMinuteRef (cells res.1) = 31)
   ∧ (timers (cells c1) = [(1%nat, 20000)]
      ∧ timers (cells res.1) = [(2%nat, 20000)])
   ∧ notifications (cells res.1)
     = notifications (cells c1) ++ [notificationTitle art])
  ∧ (activeAlarm (state (cells t1)) = Some testEvent
     ∧ activeAlarm (handler t1) = None
     ∧ tes.2 = [art]
     ∧ activeAlarm (state (cells tes.1)) = Some (endEvent art)
     ∧ lastMinuteRef (cells t1) = 30 ∧ lastMinuteRef (cells tes.1) = 31).
Proof.
  intros math art c0 c1 res t1 tes.
  split; split_and!; try (vm_compute; reflexivity).
  vm_compute. discriminate.
Qed.

(** ** Boundary hits *)

(** The claim of C6 fails in its "if" half.  Math ends at 08:30, enabled
    and active on Sunday, and the user is logged in.  The first tick of
    Sunday 08:30 triggers its alarm, which is stopped.  A second tick of
    08:30 finds the same HH:mm string, equal to the end time, and triggers
    nothing: the id is in the fired-set of this minute.  And when a second
    class of the list carries the same id and ends at 08:30 too, the tick of
    08:30 triggers the first of the two only. *)
Lemma boundary_hit_counterexample :
  let math := mkSchoolClass "1" "Math" "08:00" "08:30" ["الأحد"] true in
  let twin := mkSchoolClass "1" "Art" "07:45" "08:30" ["الأحد"] true in
  let c0 := mounted (mkDate 0 8 29) 0 perm_granted in
  let first := acts [SubmitLogin "u" [math]; WorkerTick (mkDate 0 8 30);
                     PressStop] c0 in
  let second := act first.1 (WorkerTick (mkDate 0 8 30)) in
  let c2 := (acts [SubmitLogin "u" [math; twin]] c0).1 in
  let both := act c2 (WorkerTick (mkDate 0 8 30)) in
  (endsAt (mkDate 0 8 30) math ∧ endsAt (mkDate 0 8 30) twin)
  ∧ (first.2 = [math]
     ∧ currentUser (state (cells first.1)) = Some "u"
     ∧ classes (state (cells first.1)) = [math]
     ∧ activeAlarm (state (cells first.1)) = None
     ∧ second.2 = []
     ∧ activeAlarm (state (cells second.1)) = None)
  ∧ (classes (state (cells c2)) = [math; twin]
     ∧ both.2 = [math]
     ∧ activeAlarm (state (cells both.1)) = Some (endEvent math)).
Proof.
  intros math twin c0 first second c2 both.
  split_and!; try (vm_compute; reflexivity).
  all: unfold endsAt; split_and!; vm_compute; reflexivity.
Qed.

(** C6, amended. A tick triggers the alarm of a class only if it passes the
    guard of line 255, the class is in the list, enabled and active on the
    tick's weekday, the tick's HH:mm string equals its end time, and its id
    is not in the fired-set of this minute; the trigger records the id and
    puts on display the end event of the last class the tick triggers.  For
    a class of a list with distinct ids that is enabled and active on the
    weekday, the alarm is triggered iff the HH:mm string equals the end time,
    the tick passes the guard and the id has not fired in this minute.  A
    class that ends at "08:30" is triggered at 08:30 and on no other minute
    of the day, not at 08:29 and not at 08:31.  On the component as it runs
    from mount, the closure that handles the tick reads the user and the
    class list of the current state, and a tick that triggers a class leaves
    exactly one timeout outstanding. *)
Theorem boundary_hit_exact :
  (∀ r now a c,
     c ∈ (onmessage r now a).2 →
     processed r = true ∧ c ∈ classes r ∧ active c = true
     ∧ JS.includes (days c) (dayName now) = true
     ∧ timeStr now = endTime c
     ∧ id c ∉ firedAtCheck now a
     ∧ id c ∈ firedAlarmsRef (onmessage r now a).1
     ∧ ∃ c', last (onmessage r now a).2 = Some c'
             ∧ activeAlarm (state (onmessage r now a).1) = Some (endEvent c'))
  ∧ (∀ r now a c,
       NoDup (id <$> classes r) →
       c ∈ classes r → active c = true →
       JS.includes (days c) (dayName now) = true →
       (c ∈ (onmessage r now a).2
        ↔ timeStr now = endTime c ∧ processed r = true
          ∧ id c ∉ firedAtCheck now a))
  ∧ (∀ r now a c,
       validDate now → endTime c = "08:30" → c ∈ (onmessage r now a).2 →
       getHours now = 8%nat ∧ getMinutes now = 30%nat)
  ∧ (∀ i n s ds wd d u t0 perm,
       DAYS_OF_WEEK !! wd = Some d → d ∈ ds →
       let c := mkSchoolClass i n s "08:30" ds true in
       let r := mkState (Some (String "u" u)) [c] (mkDate wd 0 0) false None in
       let a := initialApp (mkDate wd 0 0) t0 perm in
       (onmessage r (mkDate wd 8 29) a).2 = []
       ∧ (onmessage r (mkDate wd 8 30) a).2 = [c]
       ∧ activeAlarm (state (onmessage r (mkDate wd 8 30) a).1)
         = Some (endEvent c)
       ∧ (onmessage r (mkDate wd 8 31) a).2 = [])
  ∧ (∀ now0 t0 perm xs now,
       let c := (acts xs (mounted now0 t0 perm)).1 in
       let res := act c (WorkerTick now) in
       currentUser (handler c) = currentUser (state (cells c))
       ∧ classes (handler c) = classes (state (cells c))
       ∧ res.2 = (onmessage (handler c) now (cells c)).2
       ∧ cells res.1 = (onmessage (handler c) now (cells c)).1
       ∧ (res.2 ≠ [] → length (timers (cells res.1)) = 1%nat)).
Proof.
  assert (∀ r now a c,
     c ∈ (onmessage r now a).2 →
     processed r = true ∧ c ∈ classes r ∧ active c = true
     ∧ JS.includes (days c) (dayName now) = true
     ∧ timeStr now = endTime c
     ∧ id c ∉ firedAtCheck now a
     ∧ id c ∈ firedAlarmsRef (onmessage r now a).1
     ∧ ∃ c', last (onmessage r now a).2 = Some c'
             ∧ activeAlarm (state (onmessage r now a).1) = Some (endEvent c'))
    as Honly.
  { intros r now a c Hc.
    destruct (hit_effects r now a c Hc)
      as (Hp & Hin & (Hact & Hday & He) & Hn & Hf & Hal).
    by split_and!. }
  assert (∀ i n s ds wd d u t0 perm,
       DAYS_OF_WEEK !! wd = Some d → d ∈ ds →
       let c := mkSchoolClass i n s "08:30" ds true in
       let r := mkState (Some (String "u" u)) [c] (mkDate wd 0 0) false None in
       let a := initialApp (mkDate wd 0 0) t0 perm in
       (onmessage r (mkDate wd 8 29) a).2 = []
       ∧ (onmessage r (mkDate wd 8 30) a).2 = [c]
       ∧ (onmessage r (mkDate wd 8 31) a).2 = []) as Hinst.
  { intros i n s ds wd d u t0 perm Hwd Hd c r a.
    unfold onmessage, checkAlarms, checkClass, dayName, JS.includes; cbn.
    rewrite Hwd, (bool_decide_eq_true_2 _ Hd). done. }
  split_and!; [done| | | |].
  - intros r now a c Hnd Hc Hact Hday. split.
    + intros Hhit. destruct (Honly r now a c Hhit) as (?&?&?&?&?&?&_). done.
    + intros (He & Hp & Hn).
      destruct (onmessage_processed r now a Hp) as (_ & Hf & _ & Hs & Hcompl).
      specialize (Hcompl c Hc (conj Hact (conj Hday He))).
      rewrite Hf in Hcompl. apply elem_of_union in Hcompl as [?|Hin]; [done|].
      apply elem_of_hit_ids in Hin as (c' & Hc' & Hid).
      destruct (Hs c' Hc') as (Hcls & _).
      by rewrite <- (NoDup_id_inj _ _ _ Hnd Hcls Hc Hid).
  - intros r now a c Hv He Hc.
    destruct (Honly r now a c Hc) as (_ & _ & _ & _ & Ht & _). rewrite He in Ht.
    destruct (timeStr_inj now (mkDate 0 8 30)) as [? ?]; try done.
    unfold validDate; cbn; lia.
  - intros i n s ds wd d u t0 perm Hwd Hd c r a.
    destruct (Hinst i n s ds wd d u t0 perm Hwd Hd) as (H29 & H30 & H31).
    fold c r a in H29, H30, H31. split_and!; try done.
    by rewrite onmessage_alarm, H30.
  - intros now0 t0 perm xs now c res.
    assert (coherent (cells c)) as Hco
      by (apply acts_coherent, initialApp_coherent).
    destruct (acts_inSync xs (mounted now0 t0 perm)) as [Hu Hl]; [done|].
    fold c in Hu, Hl. subst res. cbn [act fst snd cells].
    split_and!; try done.
    intros Hne.
    destruct (onmessage_cells (handler c) now (cells c) Hco)
      as (Hco' & _ & _ & Hal & _).
    destruct (last (onmessage (handler c) now (cells c)).2) as [c'|] eqn:El.
    + destruct Hco' as [_ [(Hid & _)|(_ & h & d & _ & _ & -> & _)]]; [|done].
      by rewrite Hid in Hal.
    + apply last_None in El. by destruct Hne.
Qed.

(** The same at a concrete class on Sunday at 08:30. *)
Lemma boundary_hit_exact_witness :
  let c := mkSchoolClass "1" "Math" "08:00" "08:30" ["الأحد"] true in
  let now := mkDate 0 8 30 in
  let r := mkState (Some "u") [c] now false None in
  let a := initialApp now 0 perm_granted in
  c ∈ (onmessage r now a).2
  ∧ activeAlarm (state (onmessage r now a).1) = Some (endEvent c).
Proof.
  intros c now r a.
  destruct boundary_hit_exact as (Honly & Hiff & _).
  assert (c ∈ (onmessage r now a).2) as Hhit.
  { apply (Hiff r now a c).
    - apply NoDup_singleton.
    - apply list_elem_of_here.
    - reflexivity.
    - reflexivity.
    - split_and!; [reflexivity..|]. vm_compute. discriminate. }
  split; [exact Hhit|].
  destruct (Honly r now a c Hhit) as (_ & _ & _ & _ & _ & _ & _ & c' & Hl & Hal).
  rewrite Hal. vm_compute in Hl. by injection Hl as <-.
Defined.

(** ** One alarm per class and day *)

(** In the events of a list of actions, the closure that handles a tick
    reads the user and the class list of the state the tick finds. *)
Lemma trace_tick_inSync (xs : list Action) (c : Component)
    (pre post : list Event) (r : State) (now : Date) :
  currentUser (handler c) = currentUser (state (cells c))
  ∧ classes (handler c) = classes (state (cells c)) →
  trace c xs = pre ++ Tick r now :: post →
  currentUser r = currentUser (state (run pre (cells c)).1)
  ∧ classes r = classes (state (run pre (cells c)).1).
Proof.
  revert c pre. induction xs as [|x xs IH]; intros c pre Hsync E.
  { cbn in E. by destruct pre. }
  cbn [trace] in E. pose proof (act_eventOf c x) as Hact.
  pose proof (act_inSync c x Hsync) as Hsync'.
  destruct (eventOf c x) as [ev|] eqn:Ev.
  - destruct pre as [|ev' pre].
    + cbn [app] in E. injection E as -> _.
      destruct x as [now'| | |u saved| |cls|t]; cbn [eventOf] in Ev;
        try done.
      * by injection Ev as <- <-.
      * by destruct (JS.truthy (currentUser (state (cells c)))).
      * by destruct (JS.truthy (Some u)).
      * by destruct (JS.truthy (currentUser (state (cells c)))).
      * by destruct (currentUser (state (cells c))) as [u|];
          [destruct (JS.truthy (Some u))|].
    + rewrite <- app_comm_cons in E. injection E as <- E.
      rewrite run_cons, Hact. cbn [fst].
      by apply IH.
  - rewrite Hact in E, Hsync'. cbn [fst] in E, Hsync'. by apply IH.
Qed.

(** The worker's ticks leave the handler in place. *)
Lemma trace_workerTicks (c : Component) (wd from count : nat) :
  trace c (workerTicks wd from count) = minuteTicks (handler c) wd from count.
Proof.
  unfold workerTicks, minuteTicks.
  revert c from. induction count as [|count IH]; intros c from; [done|].
  cbn [seq]. rewrite !fmap_cons. cbn [trace eventOf]. f_equal.
  by rewrite IH.
Qed.

(** C1, amended. Over the events of one day, in the order of the clock,
    for a class id whose end time is a fixed HH:mm string: the alarm for the
    id is triggered at most once, however many ticks fall in the end minute.
    If it is triggered, then by a tick of the end minute that passes the
    guard of line 255 and finds the class in the list, enabled and active on
    that weekday; that tick records the id and puts on display the end event
    of the last class it triggers.  And it is triggered exactly once if some
    tick of the day passes the guard at an instant at which the class is in
    the list, enabled, active on the weekday and ending, provided the id was
    not left in the fired-set under the same minute value when the day's
    events start.  On the component as it runs, the closure that handles a
    tick reads the user and the class list of the state the tick finds.  (A
    tick that does not pass the guard is dropped, and a missed end minute is
    not made up.) *)
Theorem one_alarm_per_class_per_day
    (i : string) (h0 m0 wd : nat) (evs : list Event) (a : App) :
  (h0 < 24)%nat → (m0 < 60)%nat →
  dayRun wd evs →
  endFixed i (hhmm h0 m0) evs →
  (length (firedFor i (run evs a).2) ≤ 1)%nat
  ∧ (∀ c, c ∈ firedFor i (run evs a).2 →
       ∃ pre r now post,
         evs = pre ++ Tick r now :: post
         ∧ processed r = true ∧ c ∈ classes r ∧ endsAt now c
         ∧ timeStr now = hhmm h0 m0
         ∧ c ∈ (onmessage r now (run pre a).1).2
         ∧ i ∈ firedAlarmsRef (onmessage r now (run pre a).1).1
         ∧ ∃ c', last (onmessage r now (run pre a).1).2 = Some c'
                 ∧ activeAlarm (state (onmessage r now (run pre a).1).1)
                   = Some (endEvent c'))
  ∧ (¬ (i ∈ firedAlarmsRef a ∧ lastMinuteRef a = Z.of_nat m0) →
     dueTick i evs →
     length (firedFor i (run evs a).2) = 1%nat)
  ∧ (∀ (c : Component) (xs : list Action) pre r now post,
       currentUser (handler c) = currentUser (state (cells c)) →
       classes (handler c) = classes (state (cells c)) →
       a = cells c → evs = trace c xs →
       evs = pre ++ Tick r now :: post →
       (run evs a).2 = (acts xs c).2
       ∧ currentUser r = currentUser (state (run pre a).1)
       ∧ classes r = classes (state (run pre a).1)).
Proof.
  intros Hh Hm Hday Hfix.
  pose proof (at_most_once_that_day i h0 m0 wd evs a Hh Hm Hday Hfix) as Hle.
  split_and!; [done| | |].
  - intros c [Hid Hc]%list_elem_of_filter.
    destruct (run_hits_origin c evs a Hc) as (pre & ev & post & -> & Hc').
    destruct (step_hits_sound _ _ _ Hc') as (r & now & -> & _).
    cbn [step] in Hc'.
    destruct (hit_effects r now (run pre a).1 c Hc')
      as (Hp & Hin & He & _ & Hf & Hal).
    exists pre, r, now, post. split_and!; try done.
    + destruct He as (_ & _ & ->).
      apply Forall_app in Hfix as [_ Hfix]. apply Forall_cons in Hfix as [Hfix _].
      by apply (Hfix r now eq_refl c).
    + by rewrite <- Hid.
  - intros Hfresh Hdue.
    pose proof (due_tick_fires i h0 m0 wd evs a Hh Hm Hday Hfix Hfresh Hdue).
    destruct (firedFor i (run evs a).2); [done|]. cbn in *. lia.
  - intros c xs pre r now post Hu Hl -> -> E.
    split; [by rewrite acts_trace|].
    by apply (trace_tick_inSync xs c pre post r now).
Qed.

(** Four ticks on Sunday around 08:30, the second and third in the end
    minute, for a user who has logged in with one class: one alarm. *)
Lemma one_alarm_per_class_per_day_witness :
  let c := mkSchoolClass "1" "Math" "08:00" "08:30" ["الأحد"] true in
  let c0 := (acts [SubmitLogin "u" [c]] (mounted (mkDate 0 0 0) 0 perm_default)).1 in
  let xs := [WorkerTick (mkDate 0 8 29); WorkerTick (mkDate 0 8 30);
             WorkerTick (mkDate 0 8 30); WorkerTick (mkDate 0 8 31)] in
  length (firedFor "1" (run (trace c0 xs) (cells c0)).2) = 1%nat.
Proof.
  intros c c0 xs.
  set (r := mkState (Some "u") [c] (mkDate 0 0 0) false None).
  assert (trace c0 xs
          = [Tick r (mkDate 0 8 29); Tick r (mkDate 0 8 30);
             Tick r (mkDate 0 8 30); Tick r (mkDate 0 8 31)]) as ->
    by reflexivity.
  apply (one_alarm_per_class_per_day "1" 8 30 0); try lia.
  - split.
    + repeat (constructor;
              [intros now [= <-]; unfold validDate; cbn; lia|]).
      constructor.
    + assert (tickMinutes [Tick r (mkDate 0 8 29); Tick r (mkDate 0 8 30);
                           Tick r (mkDate 0 8 30); Tick r (mkDate 0 8 31)]
              = [509; 510; 510; 511]%nat) as ->
        by reflexivity.
      repeat (constructor; [|repeat (constructor; [lia|]); constructor]).
      constructor.
  - repeat (constructor;
            [intros ?? [= <- <-] c' Hc' _;
             apply list_elem_of_singleton in Hc' as ->; reflexivity|]).
    constructor.
  - intros [Hin _]. vm_compute in Hin. discriminate Hin.
  - exists r, (mkDate 0 8 30), c. unfold endsAt.
    split_and!; try reflexivity.
    + apply list_elem_of_further, list_elem_of_here.
    + apply list_elem_of_here.
Defined.

(** The claim of C1 fails in its "at least once" half.  In both runs the
    worker ticks once in every minute of the day, in order, and every action
    is one the page offers.

    In the first run the saved list of the user holds two classes with the
    same id, both ending at 08:30 and active on Sunday.  The user is logged
    in before the first tick of Sunday, and every tick of the day is handled
    by the closure installed then, which reads the user, both classes and no
    alarm.  The tick of 08:30 triggers the first class; the second, enabled
    and in the list all day, gets no alarm on that day.

    In the second run Math ends at 08:30 on Sunday and on Monday.  On Sunday
    its alarm is triggered at 08:30 and stopped, and the user logs out within
    that minute; the ticks that follow find no user, so the last-seen minute
    stays 30 and the id stays in the fired-set.  On Monday the user logs in
    at 08:30, before the tick of that minute: the tick passes the guard and
    finds Math in the list, enabled, active on Monday and ending, but the
    minute value is the one last seen and the id is in the fired-set.  No
    alarm is triggered on Monday. *)
Lemma one_alarm_per_day_counterexample :
  let sunday := "الأحد" in
  let monday := "الاثنين" in
  let math := mkSchoolClass "1" "Math" "08:00" "08:30" [sunday; monday] true in
  let twin := mkSchoolClass "1" "Art" "07:45" "08:30" [sunday] true in
  let cA := mounted (mkDate 0 0 0) 0 perm_granted in
  let xsA := SubmitLogin "u" [math; twin] :: workerTicks 0 0 1440 in
  let rA := mkState (Some "u") [math; twin] (mkDate 0 0 0) false None in
  let cB0 := mounted (mkDate 0 8 29) 0 perm_granted in
  let xsSun := [SubmitLogin "u" [math]; WorkerTick (mkDate 0 8 30); PressStop;
                ClickLogout] ++ workerTicks 0 511 929 in
  let cB := (acts xsSun cB0).1 in
  let xsMon := workerTicks 1 0 510 ++ [SubmitLogin "u" [math]]
               ++ workerTicks 1 510 930 in
  let loggedOut := mkState None [] (mkDate 0 8 30) false None in
  let rB := mkState (Some "u") [math] (mkDate 1 8 29) false None in
  (trace cA xsA = Login "u" [math; twin] :: minuteTicks rA 0 0 1440
   ∧ dayRun 0 (trace cA xsA) ∧ coversDay 0 (trace cA xsA)
   ∧ processed rA = true
   ∧ endsAt (mkDate 0 8 30) twin
   ∧ (acts xsA cA).2 = [math])
  ∧ ((acts xsSun cB0).2 = [math]
     ∧ trace cB xsMon
       = minuteTicks loggedOut 1 0 510 ++ [Login "u" [math]]
         ++ minuteTicks rB 1 510 930
     ∧ dayRun 1 (trace cB xsMon) ∧ coversDay 1 (trace cB xsMon)
     ∧ processed rB = true
     ∧ endsAt (mkDate 1 8 30) math
     ∧ dueTick "1" (trace cB xsMon)
     ∧ (acts xsMon cB).2 = []).
Proof.
  intros sunday monday math twin cA xsA rA cB0 xsSun cB xsMon loggedOut rB.
  assert (trace cB xsMon
          = minuteTicks loggedOut 1 0 510 ++ [Login "u" [math]]
            ++ minuteTicks rB 1 510 930) as HtrB
    by (vm_compute; reflexivity).
  split; split_and!.
  - vm_compute. reflexivity.
  - apply (dayRun_by_check 0 1440); [lia|vm_compute; reflexivity..].
  - apply coversDay_by_check. vm_compute. reflexivity.
  - reflexivity.
  - unfold endsAt. split_and!; vm_compute; reflexivity.
  - vm_compute. reflexivity.
  - vm_compute. reflexivity.
  - exact HtrB.
  - apply (dayRun_by_check 1 1440); [lia|vm_compute; reflexivity..].
  - apply coversDay_by_check. vm_compute. reflexivity.
  - reflexivity.
  - unfold endsAt. split_and!; vm_compute; reflexivity.
  - exists rB, (mkDate 1 8 30), math. split_and!.
    + rewrite HtrB. apply elem_of_app. right. apply list_elem_of_further.
      unfold minuteTicks. apply list_elem_of_fmap. exists 510%nat.
      split; [reflexivity|]. apply elem_of_seq. lia.
    + reflexivity.
    + apply list_elem_of_here.
    + reflexivity.
    + unfold endsAt. split_and!; vm_compute; reflexivity.
  - vm_compute. reflexivity.
Qed.

(** ** The test control *)

(** C4, amended. The manual test control is not guarded by the alarm
    state: it is a toggle on [isTestingSound], in every state the component
    reaches.  Invoked with the flag off, also while the alarm of a class is
    ringing, it puts the test event on display in place of the event that
    was there, cancels the timeout of the replaced alarm and sets a new one;
    invoked with the flag on, which is the case only while an alarm is
    active, it stops the alarm.  In both cases nothing is queued: one
    timeout or none is left, and no class alarm is triggered. *)
Theorem test_control_is_a_toggle
    (now0 : Date) (t0 : Z) (perm : Permission) (evs : list Event) :
  let a := (run evs (initialApp now0 t0 perm)).1 in
  let res := step a ToggleTestSound in
  res.2 = []
  ∧ (isTestingSound (state a) = false →
     activeAlarm (state res.1) = Some testEvent
     ∧ isTestingSound (state res.1) = true
     ∧ timers res.1 = [(nextTimer a, clock a + 20000)]
     ∧ (∀ c, activeAlarm (state a) = Some (endEvent c) →
          activeAlarm (state res.1) ≠ activeAlarm (state a)))
  ∧ (isTestingSound (state a) = true →
     is_Some (activeAlarm (state a))
     ∧ activeAlarm (state res.1) = None
     ∧ isTestingSound (state res.1) = false
     ∧ timers res.1 = []).
Proof.
  intros a res.
  assert (coherent a) as Hco by apply run_coherent, initialApp_coherent.
  pose proof (coherent_timerInv a Hco) as Hinv.
  clearbody a. subst res. cbn [step fst snd]. unfold toggleTestSound.
  split_and!; [done| |].
  - intros Hoff. rewrite Hoff.
    assert (timerInv (setIsTestingSound true a)) as Hinv0 by exact Hinv.
    destruct (triggerAlarm_timers "تجربة الجرس" type_start
                (setIsTestingSound true a) Hinv0) as (Ht & _).
    rewrite triggerAlarm_state. cbn [activeAlarm isTestingSound].
    split_and!; try done.
    intros c Hc. rewrite Hc. discriminate.
  - intros Hon. rewrite Hon.
    destruct (stopAlarm_timers a Hinv) as (Ht & _).
    rewrite stopAlarm_activeAlarm, stopAlarm_isTestingSound.
    split_and!; try done.
    destruct Hco as [_ [(_ & Hts & _)|(Hal & _)]]; [congruence|done].
Qed.

(** A click on the test button while the alarm of Math, triggered by the
    tick of 08:30, is ringing. *)
Lemma test_control_is_a_toggle_witness :
  let c := mkSchoolClass "1" "Math" "08:00" "08:30" ["الأحد"] true in
  let r := mkState (Some "u") [c] (mkDate 0 8 29) false None in
  let a := (run [Login "u" [c]; Tick r (mkDate 0 8 30)]
              (initialApp (mkDate 0 8 29) 0 perm_granted)).1 in
  activeAlarm (state a) = Some (endEvent c)
  ∧ activeAlarm (state (step a ToggleTestSound).1) = Some testEvent
  ∧ timers (step a ToggleTestSound).1 = [(2%nat, 20000)].
Proof.
  intros c r a.
  destruct (test_control_is_a_toggle (mkDate 0 8 29) 0 perm_granted
              [Login "u" [c]; Tick r (mkDate 0 8 30)]) as (_ & Hoff & _).
  destruct (Hoff eq_refl) as (Hal & _ & Ht & _).
  split_and!; [reflexivity|exact Hal|exact Ht].
Defined.
